(** * memstrack: the orchestrator of [memstrack.c] and the call-site engine

    The first part of this file embeds [memstrack.c]: the globals, the
    logger, option parsing, the start-up checks of [main], and the
    shutdown path [do_exit] / [on_signal].  The second part models the
    call-site aggregation engine, which [memstrack.c] only calls into;
    those definitions follow the design document and say so.  The
    properties come last.

    [set_high_priority] (lines 129-141) is defined in [memstrack.c] but
    never called, and is left out. *)

From Stdlib Require Import ZArith String Ascii List Bool Lia.
From stdpp Require Import base gmap list strings.
Import ListNotations.

Local Open Scope string_scope.
Local Open Scope Z_scope.

(** ** C library pieces used by [main] *)

Module LibC.

(** The value of a [char] seen as [unsigned char]. *)
Definition chr (c : ascii) : Z := Z.of_N (N_of_ascii c).

(** [strcmp(3)]: zero when the two strings agree, otherwise the
    difference of the first pair of bytes that differ. *)
Fixpoint strcmp (s1 s2 : string) : Z :=
  match s1, s2 with
  | EmptyString, EmptyString => 0
  | EmptyString, String c2 _ => - chr c2
  | String c1 _, EmptyString => chr c1
  | String c1 r1, String c2 r2 =>
      if Ascii.eqb c1 c2 then strcmp r1 r2 else chr c1 - chr c2
  end.

Definition isspace (c : ascii) : bool :=
  let n := chr c in (n =? 32) || ((9 <=? n) && (n <=? 13)).

Definition isdigit (c : ascii) : bool :=
  let n := chr c in (48 <=? n) && (n <=? 57).

Fixpoint skip_space (s : string) : string :=
  match s with
  | String c r => if isspace c then skip_space r else s
  | EmptyString => s
  end.

(** The decimal digits at the front of [s], accumulated onto [acc]. *)
Fixpoint digits (s : string) (acc : Z) : Z :=
  match s with
  | String c r => if isdigit c then digits r (acc * 10 + (chr c - 48)) else acc
  | EmptyString => acc
  end.

Definition LONG_MAX : Z := 2 ^ 63 - 1.
Definition LONG_MIN : Z := - 2 ^ 63.

(** [strtol(s, NULL, 10)] on an LP64 target: blanks, an optional sign,
    digits; out-of-range values saturate. *)
Definition strtol10 (s : string) : Z :=
  let v :=
    match skip_space s with
    | String "-"%char r => - digits r 0
    | String "+"%char r => digits r 0
    | t => digits t 0
    end in
  Z.max LONG_MIN (Z.min LONG_MAX v).

(** Conversion of a [long] to a 32-bit [int]: wrap-around. *)
Definition to_int (x : Z) : Z := (x + 2 ^ 31) mod 2 ^ 32 - 2 ^ 31.

(** [atoi(3)] is [(int) strtol(s, NULL, 10)]. *)
Definition atoi (s : string) : Z := to_int (strtol10 s).

(** [errno] values of Linux ([asm-generic/errno-base.h]). *)
Definition EPERM : Z := 1.
Definition EINVAL : Z := 22.

End LibC.
Import LibC.

(** ** The globals of memstrack.c (lines 20-35) *)

Record globals := Globals {
  m_debug : Z;
  m_human : Z;
  m_perf : Z;
  m_ftrace : Z;
  m_json : Z;
  m_slab : Z;
  m_page : Z;
  m_show_misc : Z;
  m_throttle : Z;
  m_summary : Z;
  m_sort_alloc : Z;
  m_sort_peak : Z;
  page_size : Z;
  m_perf_base : option string
}.

(** Static initialisation (lines 20-35): zero, except [m_throttle = 100]
    and [m_sort_alloc = 1]. *)
Definition initial_globals : globals :=
  {| m_debug := 0; m_human := 0; m_perf := 0; m_ftrace := 0; m_json := 0;
     m_slab := 0; m_page := 0; m_show_misc := 0; m_throttle := 100;
     m_summary := 0; m_sort_alloc := 1; m_sort_peak := 0;
     page_size := 0; m_perf_base := None |}.

(** The [int] globals that something writes to: through a [flag] pointer
    of [long_options] or by an assignment in [main]. *)
Inductive int_var :=
| V_debug | V_human | V_perf | V_ftrace | V_json | V_slab | V_page
| V_show_misc | V_throttle | V_summary | V_sort_alloc | V_sort_peak
| V_page_size.

Definition store (x : int_var) (v : Z) (gl : globals) : globals :=
  let '(Globals dbg hum prf ftr jsn slb pag msc thr smr sal spk pgs base) := gl in
  match x with
  | V_debug => Globals v hum prf ftr jsn slb pag msc thr smr sal spk pgs base
  | V_human => Globals dbg v prf ftr jsn slb pag msc thr smr sal spk pgs base
  | V_perf => Globals dbg hum v ftr jsn slb pag msc thr smr sal spk pgs base
  | V_ftrace => Globals dbg hum prf v jsn slb pag msc thr smr sal spk pgs base
  | V_json => Globals dbg hum prf ftr v slb pag msc thr smr sal spk pgs base
  | V_slab => Globals dbg hum prf ftr jsn v pag msc thr smr sal spk pgs base
  | V_page => Globals dbg hum prf ftr jsn slb v msc thr smr sal spk pgs base
  | V_show_misc => Globals dbg hum prf ftr jsn slb pag v thr smr sal spk pgs base
  | V_throttle => Globals dbg hum prf ftr jsn slb pag msc v smr sal spk pgs base
  | V_summary => Globals dbg hum prf ftr jsn slb pag msc thr v sal spk pgs base
  | V_sort_alloc => Globals dbg hum prf ftr jsn slb pag msc thr smr v spk pgs base
  | V_sort_peak => Globals dbg hum prf ftr jsn slb pag msc thr smr sal v pgs base
  | V_page_size => Globals dbg hum prf ftr jsn slb pag msc thr smr sal spk v base
  end.

Definition load (x : int_var) (gl : globals) : Z :=
  match x with
  | V_debug => m_debug gl | V_human => m_human gl | V_perf => m_perf gl
  | V_ftrace => m_ftrace gl | V_json => m_json gl | V_slab => m_slab gl
  | V_page => m_page gl | V_show_misc => m_show_misc gl
  | V_throttle => m_throttle gl | V_summary => m_summary gl
  | V_sort_alloc => m_sort_alloc gl | V_sort_peak => m_sort_peak gl
  | V_page_size => page_size gl
  end.

Definition store_perf_base (s : string) (gl : globals) : globals :=
  let '(Globals dbg hum prf ftr jsn slb pag msc thr smr sal spk pgs _) := gl in
  Globals dbg hum prf ftr jsn slb pag msc thr smr sal spk pgs (Some s).

(** ** What the process does to the outside world *)

Inductive stream := stdout | stderr.

Inductive adapter := Perf | Ftrace.

Inductive mallopt_param := M_TOP_PAD | M_TRIM_THRESHOLD.

(** The calls that leave memstrack.c, in the order they are made. *)
Inductive action :=
| Print (to : stream) (fmt : string)   (* vfprintf of [m_log] *)
| mallopt (p : mallopt_param) (v : Z)
| mem_tracing_init
| print_slab_usage
| handling_init (a : adapter)          (* perf_/ftrace_handling_init *)
| install_on_signal                    (* signal(SIGINT, on_signal) *)
| perf_handling_start
| handling_process (a : adapter)       (* entry of perf_/ftrace_handling_process *)
| handling_process_done (a : adapter)  (* its return *)
| handling_clean (a : adapter)         (* perf_/ftrace_handling_clean *)
| final_report (task_limit : Z).       (* final_report(&TaskMap, task_limit) *)

(** What the environment answers. *)
Record environment := {
  getpagesize : Z;
  getuid : Z;
  perf_handling_init_ret : Z;
  ftrace_handling_init_ret : Z
}.

(** ** A small monad for the C control flow

    A computation reads and writes the globals, appends to the sequence
    of external actions, and either returns, calls [exit], or enters one
    of the two [while (1)] processing loops. *)

Record world := World { gl : globals; out : list action }.

Inductive res (A : Type) :=
| Ok (a : A)
| Exit (status : Z)
| Spin (a : adapter).
Arguments Ok {A} a.
Arguments Exit {A} status.
Arguments Spin {A} a.

Definition M (A : Type) : Type := world -> res A * world.

Definition ret {A} (a : A) : M A := fun w => (Ok a, w).

Definition bind {A B} (k : A -> M B) (m : M A) : M B := fun w =>
  match m w with
  | (Ok a, w') => k a w'
  | (Exit c, w') => (Exit c, w')
  | (Spin l, w') => (Spin l, w')
  end.

(** [x ← m; k] and [m;; k] are stdpp's notations for [bind]. *)
#[global] Instance M_ret : MRet M := @ret.
#[global] Instance M_bind : MBind M := @bind.

Definition exit {A} (status : Z) : M A := fun w => (Exit status, w).
Definition spin {A} (l : adapter) : M A := fun w => (Spin l, w).
Definition emit (a : action) : M unit := fun w =>
  (Ok tt, World (gl w) (out w ++ [a])).
Definition get (x : int_var) : M Z := fun w => (Ok (load x (gl w)), w).
Definition set (x : int_var) (v : Z) : M unit := fun w =>
  (Ok tt, World (store x v (gl w)) (out w)).
Definition set_perf_base (s : string) : M unit := fun w =>
  (Ok tt, World (store_perf_base s (gl w)) (out w)).
Definition when (c : bool) (m : M unit) : M unit := if c then m else ret tt.

(** C truth of an [int]. *)
Definition truthy (v : Z) : bool := negb (v =? 0).

(** ** Logging (memstrack.c lines 37-51) *)

(** Modelled from the spec: the log levels of the missing [memstrack.h].
    Debug output is the lowest level, shown only with [--debug]; errors
    are the highest and go to the diagnostic stream. *)
Definition LOG_LVL_DEBUG : Z := 0.
(** Modelled from the spec: see [LOG_LVL_DEBUG]. *)
Definition LOG_LVL_INFO : Z := 1.
(** Modelled from the spec: see [LOG_LVL_DEBUG]. *)
Definition LOG_LVL_WARN : Z := 2.
(** Modelled from the spec: see [LOG_LVL_DEBUG]. *)
Definition LOG_LVL_ERROR : Z := 3.

Definition m_log (level : Z) (fmt : string) : M unit :=
  dbg ← get V_debug;
  if negb (truthy dbg) && (level <=? LOG_LVL_DEBUG) then ret tt
  else if LOG_LVL_WARN <=? level then emit (Print stderr fmt)
  else emit (Print stdout fmt).

(** Modelled from the spec: the [log_debug] macro of the missing
    [memstrack.h], [m_log] at the level of its name. *)
Definition log_debug := m_log LOG_LVL_DEBUG.
(** Modelled from the spec: the [log_info] macro of the missing
    [memstrack.h]. *)
Definition log_info := m_log LOG_LVL_INFO.
(** Modelled from the spec: the [log_error] macro of the missing
    [memstrack.h]. *)
Definition log_error := m_log LOG_LVL_ERROR.

(** ** Shutdown (lines 53-67) *)

Definition do_exit : M unit :=
  ftr ← get V_ftrace;
  when (truthy ftr) (emit (handling_clean Ftrace));;
  prf ← get V_perf;
  when (truthy prf) (emit (handling_clean Perf));;
  emit (final_report 0);;
  exit 0.

Definition on_signal : M unit :=
  log_debug "Exiting on signal %d\n";;
  do_exit.

(** ** The processing loops (lines 69-80): they never return *)

Definition do_process_perf : M unit :=
  emit perf_handling_start;;
  spin Perf.

Definition do_process_ftrace : M unit :=
  spin Ftrace.

(** ** [getopt_long(3)] over the option table of memstrack.c

    [main] calls [getopt_long(argc, argv, "db:h", long_options, ...)]
    until it returns -1.  The library function is modelled as glibc
    documents it, with [POSIXLY_CORRECT] unset: elements that are not
    options are skipped over, [--] ends the scan, a long option may be
    abbreviated to an unambiguous prefix and may carry its argument after
    [=] or in the next element, short options may be clustered. *)

Inductive arg_kind := no_argument | required_argument.

Record long_option := {
  name : string;
  has_arg : arg_kind;
  flag : option int_var;   (* [None] is the C null pointer *)
  val : Z
}.

(** Lines 82-99. *)
Definition long_options : list long_option :=
  [ {| name := "ftrace";    has_arg := no_argument; flag := Some V_ftrace;    val := 1 |};
    {| name := "perf";      has_arg := no_argument; flag := Some V_perf;      val := 1 |};
    {| name := "slab";      has_arg := no_argument; flag := Some V_slab;      val := 1 |};
    {| name := "page";      has_arg := no_argument; flag := Some V_page;      val := 1 |};
    {| name := "json";      has_arg := no_argument; flag := Some V_json;      val := 1 |};
    {| name := "show-misc"; has_arg := no_argument; flag := Some V_show_misc; val := 1 |};
    {| name := "summary";   has_arg := no_argument; flag := Some V_summary;   val := 1 |};
    {| name := "debug";     has_arg := no_argument; flag := None; val := chr "d" |};
    {| name := "throttle";  has_arg := required_argument; flag := None; val := chr "t" |};
    {| name := "sort-by";   has_arg := required_argument; flag := None; val := chr "s" |};
    {| name := "help";      has_arg := no_argument; flag := None; val := chr "?" |} ].

Definition optstring : string := "db:h".

(** One return of [getopt_long]: the value returned, [optarg], and the
    store it made through a [flag] pointer, if any. *)
Record getopt_ret := {
  opt : Z;
  optarg : option string;
  stored : option (int_var * Z)
}.

(** An option the library rejects (unknown, ambiguous, argument missing
    or not allowed): it returns ['?'], [optstring] not starting with a
    colon. *)
Definition rejected : getopt_ret :=
  {| opt := chr "?"; optarg := None; stored := None |}.

(** A table entry that matched: with a [flag] pointer the library stores
    [val] there and returns 0, otherwise it returns [val]. *)
Definition matched (o : long_option) (arg : option string) : getopt_ret :=
  match flag o with
  | Some x => {| opt := 0; optarg := arg; stored := Some (x, val o) |}
  | None => {| opt := val o; optarg := arg; stored := None |}
  end.

(** Splits [name=value] at the first [=]. *)
Fixpoint split_eq (s : string) : string * option string :=
  match s with
  | EmptyString => (EmptyString, None)
  | String c r =>
      if Ascii.eqb c "=" then (EmptyString, Some r)
      else let '(n, v) := split_eq r in (String c n, v)
  end.

(** The table entry a long-option name selects: the entry spelled exactly
    so, else the only entry the name is a prefix of. *)
Definition find_long (table : list long_option) (nm : string) : option long_option :=
  match List.filter (fun o => String.eqb (name o) nm) table with
  | o :: _ => Some o
  | [] =>
      match List.filter (fun o => String.prefix nm (name o)) table with
      | [o] => Some o
      | _ => None
      end
  end.

(** Where an option character stands in [optstring] and whether a colon
    follows it. *)
Fixpoint find_short (spec : string) (c : ascii) : option arg_kind :=
  match spec with
  | EmptyString => None
  | String d r =>
      if Ascii.eqb d c && negb (Ascii.eqb c ":") then
        match r with
        | String ":" _ => Some required_argument
        | _ => Some no_argument
        end
      else find_short r c
  end.

Definition short_ret (c : ascii) (arg : option string) : getopt_ret :=
  {| opt := chr c; optarg := arg; stored := None |}.

(** The returns for one cluster of short options, and the option
    character still waiting for its argument in the next element. *)
Fixpoint scan_cluster (cl : string) : list getopt_ret * option ascii :=
  match cl with
  | EmptyString => ([], None)
  | String c r =>
      match find_short optstring c with
      | None => let '(rs, w) := scan_cluster r in (rejected :: rs, w)
      | Some no_argument =>
          let '(rs, w) := scan_cluster r in (short_ret c None :: rs, w)
      | Some required_argument =>
          match r with
          | EmptyString => ([], Some c)
          | _ => ([short_ret c (Some r)], None)
          end
      end
  end.

(** How [getopt_long] reads one element of [argv]. *)
Inductive element :=
| Operand                           (* not an option; also a lone [-] *)
| EndOfOptions                      (* [--] *)
| LongOption (body : string)        (* [--body] *)
| ShortOptions (cluster : string).  (* [-cluster] *)

Definition classify (a : string) : element :=
  match a with
  | String "-" (String "-" EmptyString) => EndOfOptions
  | String "-" (String "-" body) => LongOption body
  | String "-" (String c r) => ShortOptions (String c r)
  | _ => Operand
  end.

(** All the returns of [getopt_long] before its -1, for the elements
    [argv[1..]]. *)
Fixpoint getopt_long (argv : list string) : list getopt_ret :=
  match argv with
  | [] => []
  | a :: rest =>
      match classify a with
      | EndOfOptions => []
      | Operand => getopt_long rest
      | LongOption body =>
          let '(nm, inline) := split_eq body in
          match find_long long_options nm with
          | None => rejected :: getopt_long rest
          | Some o =>
              match has_arg o, inline with
              | no_argument, None => matched o None :: getopt_long rest
              | no_argument, Some _ => rejected :: getopt_long rest
              | required_argument, Some v => matched o (Some v) :: getopt_long rest
              | required_argument, None =>
                  match rest with
                  | v :: rest' => matched o (Some v) :: getopt_long rest'
                  | [] => [rejected]
                  end
              end
          end
      | ShortOptions cl =>
          let '(rs, waiting) := scan_cluster cl in
          match waiting with
          | None => rs ++ getopt_long rest
          | Some b =>
              match rest with
              | v :: rest' => rs ++ short_ret b (Some v) :: getopt_long rest'
              | [] => rs ++ [rejected]
              end
          end
      end
  end.

(** ** Usage text (lines 102-122)

    Format strings are kept as the C literals spell them, escape
    sequences unexpanded. *)

Definition display_usage : M unit :=
  log_info "Usage: memstrack [OPTION]... \n";;
  log_info "    --debug		Print debug messages. \n";;
  log_info "    --ftrace		Use ftrace for tracing, poor performance but should always work. \n";;
  log_info "    --perf		Use binary perf for tracing, may require CONFIG_FRAME_POINTER enabled on older kernel (before 5.1). \n";;
  log_info "    --page		Collect page usage statistic. \n";;
  log_info "    --slab		Collect slab cache usage statistic. \n";;
  log_info "    --json		Format result as json. \n";;
  log_info "    --show-misc	Generate a current memory usage summary report on start. \n";;
  log_info "    --throttle [PERCENTAGE] \n";;
  log_info "    			Only print callsites consuming [PERCENTAGE] percent of total memory consumed. \n";;
  log_info "    			expects a number between 0 to 100. Useful to filter minor noises. \n";;
  log_info "    --sort-by {peak|alloc} \n";;
  log_info "    			How should the stack be sorted, by the peak usage or allocation statuc on tracer exit. \n";;
  log_info "    			Defaults to peak. \n";;
  log_info "    --summary \n";;
  log_info "    			Generate a summary instead of detailed stack info. \n";;
  log_info "    --help 		Print this message. \n".

(** ** Start-up helpers (lines 124-127) *)

Definition tune_glibc : M unit :=
  emit (mallopt M_TOP_PAD 4096);;
  emit (mallopt M_TRIM_THRESHOLD 4096).

(** ** [main] (lines 144-242) *)

Definition throttle_msg : string :=
  "--throttle expects an integer between 0 - 100!\n".
Definition conflict_msg : string :=
  "Can't have --ftrace and --perf set together!\n".
Definition subsystem_msg : string :=
  "At least one of --page and --slab is required.\n".
Definition root_msg : string :=
  "This tool requires root permission to work.\n".

(** The [switch (opt)] of lines 160-197.  [optarg] is never null for the
    two options declared [required_argument]. *)
Definition optarg_of (r : getopt_ret) : string :=
  default EmptyString (optarg r).

Definition handle_option (r : getopt_ret) : M unit :=
  let o := opt r in
  let arg := optarg_of r in
  if o =? 0 then ret tt                       (* flag set, nothing to do *)
  else if o =? chr "d" then set V_debug 1
  else if o =? chr "h" then set V_human 1
  else if o =? chr "b" then set_perf_base arg
  else if o =? chr "t" then
    set V_throttle (atoi arg);;
    thr ← get V_throttle;
    if (thr <? 0) || (100 <? thr) then
      log_error throttle_msg;;
      exit 1
    else ret tt
  else if o =? chr "s" then
    if truthy (strcmp arg "peak") then
      set V_sort_peak 1;; set V_sort_alloc 0
    else if truthy (strcmp arg "alloc") then
      set V_sort_peak 0;; set V_sort_alloc 1
    else ret tt
  else if o =? chr "?" then
    display_usage;; exit 0
  else
    display_usage;; exit 1.

(** What [getopt_long] wrote through a [flag] pointer before returning. *)
Definition apply_store (r : getopt_ret) : M unit :=
  match stored r with
  | Some (x, v) => set x v
  | None => ret tt
  end.

(** The [while (1)] of lines 150-198 over the successive returns of
    [getopt_long]; the end of the list is its -1. *)
Fixpoint option_loop (rets : list getopt_ret) : M unit :=
  match rets with
  | [] => ret tt
  | r :: rest =>
      apply_store r;;
      handle_option r;;
      option_loop rest
  end.

(** Lines 200-216: the checks on the parsed configuration. *)
Definition config_checks : M unit :=
  msc ← get V_show_misc;
  when (truthy msc) (emit print_slab_usage);;
  prf ← get V_perf;
  ftr ← get V_ftrace;
  (if truthy prf && truthy ftr then
     log_error conflict_msg;;
     exit EINVAL
   else ret tt);;
  prf ← get V_perf;
  ftr ← get V_ftrace;
  when (negb (truthy prf) && negb (truthy ftr)) (set V_perf 1);;
  pag ← get V_page;
  slb ← get V_slab;
  if negb (truthy pag) && negb (truthy slb) then
    log_error subsystem_msg;;
    exit EINVAL
  else ret tt.

(** Lines 218-221. *)
Definition privilege_check (env : environment) : M unit :=
  if negb (getuid env =? 0) then
    log_error root_msg;;
    exit EPERM
  else ret tt.

(** Lines 223-241: initialise the selected adapter and process events. *)
Definition start_tracing (env : environment) : M unit :=
  prf ← get V_perf;
  ftr ← get V_ftrace;
  (if truthy prf then
     emit (handling_init Perf);;
     let err := perf_handling_init_ret env in
     (if truthy err then
        log_error "Failed initializing perf event buffer: %s!";;
        exit err
      else ret tt);;
     emit install_on_signal;;
     do_process_perf
   else if truthy ftr then
     emit (handling_init Ftrace);;
     let err := ftrace_handling_init_ret env in
     (if truthy err then
        log_error "Failed to open ftrace: %s!";;
        exit err
      else ret tt);;
     emit install_on_signal;;
     do_process_ftrace
   else ret tt);;
  do_exit.

(** Lines 145-216: everything [main] does before it asks for the uid. *)
Definition configuration (argv : list string) (env : environment) : M unit :=
  tune_glibc;;
  set V_page_size (getpagesize env);;
  emit mem_tracing_init;;
  option_loop (getopt_long argv);;
  config_checks.

Definition main (argv : list string) (env : environment) : M unit :=
  configuration argv env;;
  privilege_check env;;
  start_tracing env.

(** A run of the program: [argv] holds the elements after the program
    name. *)
Definition run (argv : list string) (env : environment) : res unit * world :=
  main argv env (World initial_globals []).

(** The same run stopped after line 216. *)
Definition configure (argv : list string) (env : environment) : res unit * world :=
  configuration argv env (World initial_globals []).

Definition status_of (r : res unit * world) : res unit := fst r.
Definition globals_of (r : res unit * world) : globals := gl (snd r).
Definition actions_of (r : res unit * world) : list action := out (snd r).

Definition root_env : environment :=
  {| getpagesize := 4096; getuid := 0;
     perf_handling_init_ret := 0; ftrace_handling_init_ret := 0 |}.
Definition user_env : environment :=
  {| getpagesize := 4096; getuid := 1000;
     perf_handling_init_ret := 0; ftrace_handling_init_ret := 0 |}.

(** ** The tracing session and SIGINT

    Once [main] is inside [do_process_perf] or [do_process_ftrace] the
    main thread alternates between entering and leaving the adapter's
    [*_handling_process] call, for ever.  [on_signal] was installed with
    [signal(2)], so a SIGINT runs it at whatever point the main thread
    has reached; nothing in memstrack.c blocks the signal. *)

Inductive tick :=
| enter_process     (* the loop body calls [*_handling_process] *)
| leave_process     (* that call returns *)
| SIGINT.           (* the signal is delivered *)

Record session := Session {
  sw : world;
  looping : adapter;
  inside : bool;            (* is a [*_handling_process] call in progress? *)
  ended : option Z          (* the status passed to [exit], once called *)
}.

Definition session_step (t : tick) (s : session) : session :=
  match ended s with
  | Some _ => s
  | None =>
      match t with
      | enter_process =>
          if inside s then s
          else Session (snd (emit (handling_process (looping s)) (sw s)))
                       (looping s) true None
      | leave_process =>
          if inside s
          then Session (snd (emit (handling_process_done (looping s)) (sw s)))
                       (looping s) false None
          else s
      | SIGINT =>
          let '(r, w) := on_signal (sw s) in
          Session w (looping s) (inside s)
                  (match r with Exit c => Some c | _ => None end)
      end
  end.

Definition session_run (ts : list tick) (s : session) : session :=
  fold_left (fun s t => session_step t s) ts s.

(** The session a run ends up in, if it gets as far as a processing loop. *)
Definition start_session (argv : list string) (env : environment) : option session :=
  match run argv env with
  | (Spin a, w) => Some (Session w a false None)
  | _ => None
  end.

(** Does every [final_report] of a sequence of actions fall outside the
    [*_handling_process] calls?  [busy] tells whether such a call is in
    progress at the start. *)
Fixpoint report_when_idle (busy : bool) (l : list action) : bool :=
  match l with
  | [] => true
  | handling_process _ :: l' => report_when_idle true l'
  | handling_process_done _ :: l' => report_when_idle false l'
  | final_report _ :: l' => negb busy && report_when_idle busy l'
  | _ :: l' => report_when_idle busy l'
  end.

(** ** The call-site aggregation engine

    The engine ([tracing.c] behind [mem_tracing_init], [TaskMap] and
    [final_report]) is not among the sources; [memstrack.c] only calls
    into it.  This section follows sections 3 and 4.1 of the design
    document. *)

Module Engine.

(** Modelled from the spec: the kind of an event (section 3); the C
    declaration is missing. *)
Inductive event_kind := Alloc | Free.

(** Modelled from the spec: the two allocators (section 3); the C
    declaration is missing. *)
Inductive subsystem := Page | Slab.

(** Modelled from the spec: the normalised event of section 3, whose C
    declaration is missing. *)
Record AllocEvent := {
  kind : event_kind;
  subsys : subsystem;
  size_bytes : N;               (* a non-negative integer *)
  call_stack : list Z;          (* frame identifiers, innermost first *)
  origin : Z
}.

(** Modelled from the spec: the node of the merged call-stack tree,
    whose C declaration is missing.  The children are kept in creation
    order, one per frame identifier. *)
#[warnings="-register-all"]
Inductive CallSiteNode := Node {
  frame_id : Z;
  children : list CallSiteNode;
  current_bytes : Z;
  peak_bytes : Z;
  alloc_count : Z;
  free_count : Z
}.

(** Modelled from the spec: the forest root, a mapping from origin
    identifier to root node, whose C definition is missing. *)
Abbreviation TaskMap := (gmap Z CallSiteNode).

(** Modelled from the spec: node creation of the missing engine; nodes
    are created lazily, with all counters at zero. *)
Definition new_node (f : Z) : CallSiteNode :=
  {| frame_id := f; children := []; current_bytes := 0; peak_bytes := 0;
     alloc_count := 0; free_count := 0 |}.

(** Modelled from the spec: replacing the children of a node in the
    missing engine; [frame_id] and the counters stay. *)
Definition with_children (n : CallSiteNode) (cs : list CallSiteNode) : CallSiteNode :=
  {| frame_id := frame_id n; children := cs;
     current_bytes := current_bytes n; peak_bytes := peak_bytes n;
     alloc_count := alloc_count n; free_count := free_count n |}.

(** Modelled from the spec: the update of the terminal node by an Alloc,
    part of the missing [ingest]: add the size, count the allocation,
    raise the peak to the new current value if that is larger. *)
Definition on_alloc (size : Z) (n : CallSiteNode) : CallSiteNode :=
  let cur := current_bytes n + size in
  {| frame_id := frame_id n; children := children n;
     current_bytes := cur; peak_bytes := Z.max (peak_bytes n) cur;
     alloc_count := alloc_count n + 1; free_count := free_count n |}.

(** Modelled from the spec: the update of the terminal node by a Free,
    part of the missing [ingest]: subtract the size with a floor of
    zero, count the free, leave the peak alone. *)
Definition on_free (size : Z) (n : CallSiteNode) : CallSiteNode :=
  {| frame_id := frame_id n; children := children n;
     current_bytes := Z.max 0 (current_bytes n - size);
     peak_bytes := peak_bytes n;
     alloc_count := alloc_count n; free_count := free_count n + 1 |}.

(** Modelled from the spec: the anomaly test of the missing [ingest]; a
    Free larger than what the node holds would go negative. *)
Definition underflows (size : Z) (n : CallSiteNode) : bool :=
  current_bytes n - size <? 0.

(** Modelled from the spec: the create-or-find step of the missing
    [ingest]; the child for frame [f] is updated by [upd], and created
    first if it is not there. *)
Fixpoint upsert (f : Z) (upd : CallSiteNode -> CallSiteNode)
    (cs : list CallSiteNode) : list CallSiteNode :=
  match cs with
  | [] => [upd (new_node f)]
  | c :: cs' =>
      if frame_id c =? f then upd c :: cs' else c :: upsert f upd cs'
  end.

(** Modelled from the spec: the walk of the missing [ingest] along a
    call stack, creating the nodes that are not there yet and applying
    [upd] to the terminal node. *)
Fixpoint at_stack (stack : list Z) (upd : CallSiteNode -> CallSiteNode)
    (n : CallSiteNode) : CallSiteNode :=
  match stack with
  | [] => upd n
  | f :: rest => with_children n (upsert f (at_stack rest upd) (children n))
  end.

(** Modelled from the spec: child lookup by frame identifier in the
    missing engine. *)
Fixpoint find_child (f : Z) (cs : list CallSiteNode) : option CallSiteNode :=
  match cs with
  | [] => None
  | c :: cs' => if frame_id c =? f then Some c else find_child f cs'
  end.

(** Modelled from the spec: the node a call stack leads to from [n] in
    the missing engine, if it exists. *)
Fixpoint node_at (stack : list Z) (n : CallSiteNode) : option CallSiteNode :=
  match stack with
  | [] => Some n
  | f :: rest =>
      match find_child f (children n) with
      | Some c => node_at rest c
      | None => None
      end
  end.

(** Modelled from the spec: the state of the missing engine, the forest
    and the diagnostics emitted so far. *)
Record engine := {
  forest : TaskMap;
  anomalies : list AllocEvent     (* the diagnostics emitted so far *)
}.

(** Modelled from the spec: the state [Init] of section 4.2, an empty
    forest; [mem_tracing_init] is missing. *)
Definition init : engine := {| forest := ∅; anomalies := [] |}.

(** Modelled from the spec: the root for an origin in the missing
    engine, created on first use. *)
Definition root_of (m : TaskMap) (o : Z) : CallSiteNode :=
  default (new_node o) (m !! o).

(** Modelled from the spec: [ingest] of section 4.1, whose C source is
    missing. *)
Definition ingest (e : AllocEvent) (eng : engine) : engine :=
  let root := root_of (forest eng) (origin e) in
  let size := Z.of_N (size_bytes e) in
  match kind e with
  | Alloc =>
      {| forest := <[origin e := at_stack (call_stack e) (on_alloc size) root]> (forest eng);
         anomalies := anomalies eng |}
  | Free =>
      let terminal := default (new_node 0) (node_at (call_stack e) root) in
      {| forest := <[origin e := at_stack (call_stack e) (on_free size) root]> (forest eng);
         anomalies := if underflows size terminal then anomalies eng ++ [e] else anomalies eng |}
  end.

(** Modelled from the spec: the event loop feeding the missing [ingest]. *)
Definition ingest_all (es : list AllocEvent) (eng : engine) : engine :=
  fold_left (fun eng e => ingest e eng) es eng.

(** Modelled from the spec: the node for call stack [stack] under origin
    [o] in the missing [TaskMap]. *)
Definition site_at (m : TaskMap) (o : Z) (stack : list Z) : option CallSiteNode :=
  match m !! o with
  | Some root => node_at stack root
  | None => None
  end.

(** Modelled from the spec: the traversal of step 1 of the missing
    report generator; every node below [n] (and [n] itself) with the
    frames that lead to it, parents before children, children in
    creation order. *)
Fixpoint walk (pre : list Z) (n : CallSiteNode) : list (list Z * CallSiteNode) :=
  let here := (pre ++ [frame_id n])%list in
  (here, n) :: flat_map (walk here) (children n).

(** Modelled from the spec: the flattened forest of step 3 of the
    missing report generator. *)
Definition sites (m : TaskMap) : list (list Z * CallSiteNode) :=
  flat_map (fun '(_, root) => walk [] root) (map_to_list m).

End Engine.

(** * The vocabulary of the statements *)

(** ** About the option loop *)

(** The lines [display_usage] prints. *)
Definition usage_text : list action :=
  Eval cbv in out (snd (display_usage (World initial_globals []))).

(** Equality of the names of the globals is decidable. *)
#[global] Instance int_var_eq_dec : EqDecision int_var.
Proof. solve_decision. Defined.

(** The values [getopt_long] can return for this table and [optstring]. *)
Definition known (o : Z) : bool :=
  (o =? 0) || (o =? chr "d") || (o =? chr "h") || (o =? chr "b") ||
  (o =? chr "t") || (o =? chr "s") || (o =? chr "?").

(** The test of line 177. *)
Definition out_of_range (v : Z) : bool := (v <? 0) || (100 <? v).

(** The two ways an iteration ends the process. *)
Inductive stop := Help | BadThrottle.

(** Does the iteration for [r] end the process, and how? *)
Definition stops (r : getopt_ret) : option stop :=
  if opt r =? chr "?" then Some Help
  else if (opt r =? chr "t") && out_of_range (atoi (optarg_of r)) then Some BadThrottle
  else None.

(** The iteration that ends the loop early, if there is one. *)
Fixpoint first_stop (rets : list getopt_ret) : option stop :=
  match rets with
  | [] => None
  | r :: rest =>
      match stops r with
      | Some s => Some s
      | None => first_stop rest
      end
  end.

(** Can the iteration for [r] write the global [x]? *)
Definition touches (x : int_var) (r : getopt_ret) : bool :=
  match stored r with
  | Some (y, _) => bool_decide (x = y)
  | None => false
  end
  || match x with
     | V_debug => opt r =? chr "d"
     | V_human => opt r =? chr "h"
     | V_throttle => opt r =? chr "t"
     | V_sort_peak | V_sort_alloc => opt r =? chr "s"
     | _ => false
     end.

(** Is there an option on the command line that writes [x]?  For the
    flag options this says that the option is given. *)
Definition given (x : int_var) (argv : list string) : bool :=
  existsb (touches x) (getopt_long argv).

(** ** About a run *)

(** The world when the option loop starts (lines 145-148). *)
Definition prelude_world (env : environment) : world :=
  World (store V_page_size (getpagesize env) initial_globals)
        [mallopt M_TOP_PAD 4096; mallopt M_TRIM_THRESHOLD 4096; mem_tracing_init].

(** What [--show-misc] adds to the actions (lines 200-202). *)
Definition slab_usage_shown (g : globals) : list action :=
  if truthy (m_show_misc g) then [print_slab_usage] else [].

(** What [log_debug] prints. *)
Definition debug_line (g : globals) (fmt : string) : list action :=
  if truthy (m_debug g) then [Print stdout fmt] else [].

(** What [do_exit] cleans up before the final report. *)
Definition cleanups (g : globals) : list action :=
  ((if truthy (m_ftrace g) then [handling_clean Ftrace] else []) ++
   (if truthy (m_perf g) then [handling_clean Perf] else []))%list.

(** The initialisation of an adapter. *)
Definition is_init (a : action) : bool :=
  match a with
  | handling_init _ => true
  | _ => false
  end.

(** Was a tracing adapter initialised, i.e. a tracing resource touched? *)
Definition adapter_initialised (l : list action) : bool := existsb is_init l.

(** The adapters that are initialised, in the order of the calls. *)
Fixpoint initialised_adapters (l : list action) : list adapter :=
  match l with
  | [] => []
  | handling_init a :: l' => a :: initialised_adapters l'
  | _ :: l' => initialised_adapters l'
  end.

(** Something was printed on the diagnostic stream. *)
Definition printed_error (l : list action) : Prop :=
  exists msg, In (Print stderr msg) l.

(** The process reports an error and exits with a non-zero status before
    any adapter is initialised. *)
Definition fails_fast (r : res unit * world) : Prop :=
  exists c, status_of r = Exit c /\ c <> 0 /\
            printed_error (actions_of r) /\
            adapter_initialised (actions_of r) = false.

(** No return of [getopt_long] is ['?']: no [--help], no rejected option. *)
Definition no_question_mark (argv : list string) : bool :=
  forallb (fun r => negb (opt r =? chr "?")) (getopt_long argv).

(** The return of [getopt_long] for [--sort-by arg] and [--sort-by=arg]. *)
Definition sort_by (arg : string) : getopt_ret :=
  {| opt := chr "s"; optarg := Some arg; stored := None |}.

(** The return of [getopt_long] for [--throttle arg] and [--throttle=arg]. *)
Definition throttle (arg : string) : getopt_ret :=
  {| opt := chr "t"; optarg := Some arg; stored := None |}.

(** ** The claims as they are written *)

(** The claim as written: without [--page] and [--slab] the run fails
    fast. *)
Definition subsystem_claim (argv : list string) (env : environment) : Prop :=
  given V_page argv = false -> given V_slab argv = false ->
  fails_fast (run argv env).

(** A configuration error: the process exits with a non-zero status
    while still configuring, before the uid is looked at. *)
Definition configuration_error (argv : list string) (env : environment) (c : Z) : Prop :=
  status_of (configure argv env) = Exit c /\ c <> 0.

(** The claim as written: a non-root user with a valid configuration is
    turned away before any adapter is initialised, with a status that no
    configuration error uses. *)
Definition privilege_claim (argv : list string) (env : environment) : Prop :=
  getuid env <> 0 -> status_of (configure argv env) = Ok tt ->
  exists c, status_of (run argv env) = Exit c /\
            adapter_initialised (actions_of (run argv env)) = false /\
            forall argv' env', ~ configuration_error argv' env' c.

(** The claim as written: the usage text is printed, the status is 0 and
    no adapter is initialised. *)
Definition help_claim (argv : list string) (env : environment) : Prop :=
  status_of (run argv env) = Exit 0 /\
  (exists before, actions_of (run argv env) = (before ++ usage_text)%list) /\
  adapter_initialised (actions_of (run argv env)) = false.

(** The claim as written: however the ticks of a session fall, the
    report is only ever produced while no [*_handling_process] call is
    in progress. *)
Definition cooperative_claim (ts : list tick) (s : session) : Prop :=
  report_when_idle false (out (sw (session_run ts s))) = true.

(** The claim as written: without [--ftrace] and [--perf] the perf
    adapter is selected, [m_perf] set and [m_ftrace] not, and it is the
    one adapter of the run. *)
Definition default_adapter_claim (argv : list string) (env : environment) : Prop :=
  given V_ftrace argv = false -> given V_perf argv = false ->
  (m_perf (globals_of (run argv env)) = 1 /\
   m_ftrace (globals_of (run argv env)) = 0) /\
  initialised_adapters (actions_of (run argv env)) = [Perf].

(** A perf session interrupted in the middle of a processing call. *)
Definition busy_session : session :=
  Session (World (store V_perf 1 initial_globals) [handling_process Perf])
          Perf true None.

(** ** About the engine *)

Import Engine.

(** Every node at or below [n]. *)
Fixpoint nodes (n : CallSiteNode) : list CallSiteNode :=
  n :: flat_map nodes (children n).

(** [P] holds of every node at or below [n]. *)
Definition all_below (P : CallSiteNode -> Prop) (n : CallSiteNode) : Prop :=
  forall n', In n' (nodes n) -> P n'.

(** The accounting invariant of a node. *)
Definition balanced (n : CallSiteNode) : Prop :=
  0 <= current_bytes n <= peak_bytes n.

(** Every node of every tree of the forest is balanced. *)
Definition forest_balanced (m : TaskMap) : Prop :=
  forall o root, m !! o = Some root -> all_below balanced root.

(** [n'] has the frame and the counters of [n]. *)
Definition same_counters (n n' : CallSiteNode) : Prop :=
  frame_id n' = frame_id n /\
  current_bytes n' = current_bytes n /\ peak_bytes n' = peak_bytes n /\
  alloc_count n' = alloc_count n /\ free_count n' = free_count n.

(** The events of the end-to-end scenario of the design document, all
    from origin 0: frames 1, 2, 3 stand for f1, f2, f3. *)
Definition scenario : list AllocEvent :=
  [ {| kind := Alloc; subsys := Page; size_bytes := 4096; call_stack := [1; 2]; origin := 0 |};
    {| kind := Alloc; subsys := Page; size_bytes := 8192; call_stack := [1; 3]; origin := 0 |};
    {| kind := Free; subsys := Page; size_bytes := 4096; call_stack := [1; 2]; origin := 0 |} ].

(** ** About the rest of the start-up and the session *)

(** The globals that [long_options] sets through a [flag] pointer. *)
Definition is_flag (x : int_var) : bool :=
  match x with
  | V_ftrace | V_perf | V_slab | V_page | V_json | V_show_misc | V_summary => true
  | _ => false
  end.

(** A return of [getopt_long] as the table of memstrack.c makes them: a
    store through a [flag] pointer writes 1 to one of the flags and comes
    with the value 0; without a store the value is not 0. *)
Definition table_return (r : getopt_ret) : bool :=
  known (opt r) &&
  match stored r with
  | Some (x, v) => (v =? 1) && (opt r =? 0) && is_flag x
  | None => negb (opt r =? 0)
  end.

(** The final report. *)
Definition is_report (a : action) : bool :=
  match a with
  | final_report _ => true
  | _ => false
  end.

(** How many times [final_report] is called. *)
Definition reports (l : list action) : nat := length (List.filter is_report l).

(** The delivery of the signal. *)
Definition is_sigint (t : tick) : bool :=
  match t with
  | SIGINT => true
  | _ => false
  end.

(** The entry into, or the return from, the processing call of adapter
    [a]. *)
Definition is_processing (a : adapter) (x : action) : bool :=
  match x, a with
  | handling_process Perf, Perf | handling_process_done Perf, Perf => true
  | handling_process Ftrace, Ftrace | handling_process_done Ftrace, Ftrace => true
  | _, _ => false
  end.

(** The actions of the adapter start-up of lines 224-231 and 232-239
    when the initialisation succeeds. *)
Definition started (a : adapter) : list action :=
  match a with
  | Perf => [handling_init Perf; install_on_signal; perf_handling_start]
  | Ftrace => [handling_init Ftrace; install_on_signal]
  end.

(** What the initialisation of an adapter answers. *)
Definition init_ret (env : environment) (a : adapter) : Z :=
  match a with
  | Perf => perf_handling_init_ret env
  | Ftrace => ftrace_handling_init_ret env
  end.

(** The message of a failed initialisation. *)
Definition init_failed_msg (a : adapter) : string :=
  match a with
  | Perf => "Failed initializing perf event buffer: %s!"
  | Ftrace => "Failed to open ftrace: %s!"
  end.

(** The ways a run of [main] can end. *)
Inductive ending :=
| UsageShown            (* exit(0) after display_usage *)
| ThrottleRejected      (* exit(1), line 179 *)
| AdaptersConflict      (* exit(EINVAL), line 206 *)
| NoSubsystem           (* exit(EINVAL), line 215 *)
| NotRoot               (* exit(EPERM), line 220 *)
| InitFailed (a : adapter)   (* exit(err), lines 228 and 236 *)
| Tracing (a : adapter).     (* inside do_process_perf / do_process_ftrace *)

(** The status and the last actions that go with an ending. *)
Definition ends_as (env : environment) (e : ending) (r : res unit * world) : Prop :=
  match e with
  | UsageShown =>
      status_of r = Exit 0 /\
      actions_of r = (out (prelude_world env) ++ usage_text)%list
  | ThrottleRejected =>
      status_of r = Exit 1 /\
      actions_of r = (out (prelude_world env) ++ [Print stderr throttle_msg])%list
  | AdaptersConflict =>
      status_of r = Exit EINVAL /\
      actions_of r = (out (prelude_world env) ++ slab_usage_shown (globals_of r) ++
                      [Print stderr conflict_msg])%list
  | NoSubsystem =>
      status_of r = Exit EINVAL /\
      actions_of r = (out (prelude_world env) ++ slab_usage_shown (globals_of r) ++
                      [Print stderr subsystem_msg])%list
  | NotRoot =>
      status_of r = Exit EPERM /\
      actions_of r = (out (prelude_world env) ++ slab_usage_shown (globals_of r) ++
                      [Print stderr root_msg])%list
  | InitFailed a =>
      status_of r = Exit (init_ret env a) /\ init_ret env a <> 0 /\
      actions_of r = (out (prelude_world env) ++ slab_usage_shown (globals_of r) ++
                      [handling_init a; Print stderr (init_failed_msg a)])%list
  | Tracing a =>
      status_of r = Spin a /\ init_ret env a = 0 /\
      actions_of r = (out (prelude_world env) ++ slab_usage_shown (globals_of r) ++
                      started a)%list
  end.

(** The ending of a run read off the command line and the environment,
    in the order [main] makes its checks. *)
Definition ending_of (argv : list string) (env : environment) : ending :=
  match first_stop (getopt_long argv) with
  | Some Help => UsageShown
  | Some BadThrottle => ThrottleRejected
  | None =>
      if given V_perf argv && given V_ftrace argv then AdaptersConflict
      else if negb (given V_page argv) && negb (given V_slab argv) then NoSubsystem
      else if negb (getuid env =? 0) then NotRoot
      else
        let a := if given V_ftrace argv then Ftrace else Perf in
        if truthy (init_ret env a) then InitFailed a else Tracing a
  end.

(** Exactly one of the two sort flags is set. *)
Definition one_sort_flag (g : globals) : Prop :=
  (load V_sort_alloc g = 1 /\ load V_sort_peak g = 0) \/
  (load V_sort_alloc g = 0 /\ load V_sort_peak g = 1).

(** The threshold is a percentage. *)
Definition throttle_in_range (g : globals) : Prop := 0 <= m_throttle g <= 100.

(** The status of an ending. *)
Definition status_for (env : environment) (e : ending) : res unit :=
  match e with
  | UsageShown => Exit 0
  | ThrottleRejected => Exit 1
  | AdaptersConflict | NoSubsystem => Exit EINVAL
  | NotRoot => Exit EPERM
  | InitFailed a => Exit (init_ret env a)
  | Tracing a => Spin a
  end.

(** The last actions of an ending. *)
Definition tail_of (e : ending) : list action :=
  match e with
  | UsageShown => usage_text
  | ThrottleRejected => [Print stderr throttle_msg]
  | AdaptersConflict => [Print stderr conflict_msg]
  | NoSubsystem => [Print stderr subsystem_msg]
  | NotRoot => [Print stderr root_msg]
  | InitFailed a => [handling_init a; Print stderr (init_failed_msg a)]
  | Tracing a => started a
  end.

(** Does the run get past the option loop? *)
Definition parses (argv : list string) : bool :=
  match first_stop (getopt_long argv) with
  | None => true
  | Some _ => false
  end.

(** The call of [print_slab_usage]. *)
Definition is_slab_usage (a : action) : bool :=
  match a with
  | print_slab_usage => true
  | _ => false
  end.

(** The installation of the signal handler. *)
Definition is_install (a : action) : bool :=
  match a with
  | install_on_signal => true
  | _ => false
  end.

(** The clean-up of an adapter. *)
Definition is_clean (a : action) : bool :=
  match a with
  | handling_clean _ => true
  | _ => false
  end.

(** Does [atoi] find a number at the front of [s]: blanks, an optional
    sign, then a digit? *)
Definition starts_with_number (s : string) : bool :=
  match skip_space s with
  | String c r =>
      isdigit c ||
      ((Ascii.eqb c "-" || Ascii.eqb c "+") &&
       match r with
       | String d _ => isdigit d
       | EmptyString => false
       end)
  | EmptyString => false
  end.

(** The value [m_throttle] ends with: that of the last [--throttle]. *)
Fixpoint final_throttle (rets : list getopt_ret) (current : Z) : Z :=
  match rets with
  | [] => current
  | r :: rest =>
      final_throttle rest
        (if opt r =? chr "t" then atoi (optarg_of r) else current)
  end.

(** A return that neither ends the process nor sets one of the five
    flags the start-up checks look at. *)
Definition inert (r : getopt_ret) : bool :=
  match stops r with
  | Some _ => false
  | None =>
      negb (touches V_perf r || touches V_ftrace r || touches V_page r ||
            touches V_slab r || touches V_show_misc r)
  end.

(** The returns that are not inert. *)
Definition weighty (rets : list getopt_ret) : list getopt_ret :=
  List.filter (fun r => negb (inert r)) rets.

(** * Properties of the orchestrator *)

Section Monad.

Context {A B : Type}.

Lemma bind_unfold (m : M A) (k : A -> M B) (w : world) :
  (m ≫= k) w =
  match m w with
  | (Ok a, w') => k a w'
  | (Exit c, w') => (Exit c, w')
  | (Spin l, w') => (Spin l, w')
  end.
Proof. reflexivity. Qed.

End Monad.

(** [log_info] and [log_error] print whatever [m_debug] holds: their
    levels are above [LOG_LVL_DEBUG]. *)
Lemma log_info_prints fmt w :
  log_info fmt w = (Ok tt, World (gl w) (out w ++ [Print stdout fmt])).
Proof.
  unfold log_info, m_log. rewrite bind_unfold. cbn.
  rewrite andb_false_r. reflexivity.
Qed.

Lemma log_error_prints fmt w :
  log_error fmt w = (Ok tt, World (gl w) (out w ++ [Print stderr fmt])).
Proof.
  unfold log_error, m_log. rewrite bind_unfold. cbn.
  rewrite andb_false_r. reflexivity.
Qed.

Lemma display_usage_prints w :
  display_usage w = (Ok tt, World (gl w) (out w ++ usage_text)).
Proof.
  unfold display_usage.
  repeat (rewrite bind_unfold, log_info_prints; cbn [gl out]).
  rewrite log_info_prints. cbn [gl out].
  rewrite <- !app_assoc. reflexivity.
Qed.

(** ** Reading and writing the globals *)

Lemma load_store_eq x v g : load x (store x v g) = v.
Proof. destruct g, x; reflexivity. Qed.

Lemma load_store_ne x y v g : x <> y -> load x (store y v g) = load x g.
Proof. intros H. destruct g, x, y; try reflexivity; congruence. Qed.

Lemma load_store_perf_base x s g : load x (store_perf_base s g) = load x g.
Proof. destruct g, x; reflexivity. Qed.

(** ** One iteration of the option loop *)

Ltac run_monad :=
  repeat first
    [ rewrite bind_unfold
    | rewrite log_error_prints
    | rewrite log_info_prints
    | rewrite display_usage_prints
    | progress cbn [gl out fst snd get set emit exit spin ret when
                    set_perf_base mret M_ret] ].

(** Decides the comparisons of the [switch] between option characters. *)
Ltac eval_tests :=
  repeat match goal with
  | |- context [Z.eqb (chr ?c) ?b] =>
      let t := constr:(Z.eqb (chr c) b) in
      let v := eval vm_compute in t in
      first [constr_eq v true | constr_eq v false];
      change t with v; cbv iota
  end.

Lemma handle_option_help r w :
  opt r = chr "?" ->
  handle_option r w = (Exit 0, World (gl w) (out w ++ usage_text)).
Proof.
  intros H. unfold handle_option. rewrite H. eval_tests.
  run_monad. reflexivity.
Qed.

Lemma handle_option_throttle r w :
  opt r = chr "t" ->
  handle_option r w =
  let v := atoi (optarg_of r) in
  if out_of_range v
  then (Exit 1, World (store V_throttle v (gl w)) (out w ++ [Print stderr throttle_msg]))
  else (Ok tt, World (store V_throttle v (gl w)) (out w)).
Proof.
  intros H. unfold handle_option. rewrite H. eval_tests.
  run_monad. rewrite load_store_eq. fold (out_of_range (atoi (optarg_of r))).
  destruct (out_of_range _); run_monad; reflexivity.
Qed.

Lemma handle_option_sort_by r w :
  opt r = chr "s" ->
  handle_option r w =
  if truthy (strcmp (optarg_of r) "peak")
  then (Ok tt, World (store V_sort_alloc 0 (store V_sort_peak 1 (gl w))) (out w))
  else if truthy (strcmp (optarg_of r) "alloc")
  then (Ok tt, World (store V_sort_alloc 1 (store V_sort_peak 0 (gl w))) (out w))
  else (Ok tt, w).
Proof.
  intros H. unfold handle_option. rewrite H. eval_tests.
  destruct (truthy (strcmp _ "peak")); [run_monad; reflexivity|].
  destruct (truthy (strcmp _ "alloc")); run_monad; reflexivity.
Qed.

Lemma known_cases o :
  known o = true ->
  o = 0 \/ o = chr "d" \/ o = chr "h" \/ o = chr "b" \/
  o = chr "t" \/ o = chr "s" \/ o = chr "?".
Proof.
  unfold known. rewrite !orb_true_iff, !Z.eqb_eq. tauto.
Qed.

(** An iteration that is not one of the two stops goes on to the next
    [getopt_long] and prints nothing. *)
Lemma handle_option_passes r w :
  known (opt r) = true -> stops r = None ->
  fst (handle_option r w) = Ok tt /\ out (snd (handle_option r w)) = out w.
Proof.
  intros Hk Hs. unfold stops in Hs.
  destruct (known_cases _ Hk) as [H|[H|[H|[H|[H|[H|H]]]]]].
  - unfold handle_option. rewrite H. cbn. auto.
  - unfold handle_option. rewrite H. eval_tests. cbn. auto.
  - unfold handle_option. rewrite H. eval_tests. cbn. auto.
  - unfold handle_option. rewrite H. eval_tests. cbn. auto.
  - rewrite handle_option_throttle by exact H.
    rewrite H in Hs. revert Hs. eval_tests. cbn [andb].
    destruct (out_of_range _); [discriminate|]. cbn. auto.
  - rewrite handle_option_sort_by by exact H.
    destruct (truthy _); [cbn; auto|]. destruct (truthy _); cbn; auto.
  - rewrite H in Hs. revert Hs. eval_tests. discriminate.
Qed.

Lemma handle_option_stops r w s :
  stops r = Some s ->
  fst (handle_option r w) = Exit (match s with Help => 0 | BadThrottle => 1 end) /\
  out (snd (handle_option r w)) =
    (out w ++ match s with
              | Help => usage_text
              | BadThrottle => [Print stderr throttle_msg]
              end)%list.
Proof.
  unfold stops. destruct (opt r =? chr "?") eqn:Hq.
  - intros [= <-]. apply Z.eqb_eq in Hq.
    rewrite handle_option_help by exact Hq. auto.
  - destruct (opt r =? chr "t") eqn:Ht; [|discriminate].
    cbn [andb]. destruct (out_of_range _) eqn:Hr; [|discriminate].
    intros [= <-]. apply Z.eqb_eq in Ht.
    rewrite handle_option_throttle by exact Ht. cbn zeta. rewrite Hr. auto.
Qed.

Lemma apply_store_run r w :
  apply_store r w =
  (Ok tt, World (match stored r with
                 | Some (x, v) => store x v (gl w)
                 | None => gl w
                 end) (out w)).
Proof.
  unfold apply_store. destruct (stored r) as [[x v]|]; [reflexivity|].
  destruct w; reflexivity.
Qed.

(** ** The whole option loop *)

Lemma option_loop_outcome rets :
  Forall (fun r => known (opt r) = true) rets ->
  forall w,
    fst (option_loop rets w) =
      match first_stop rets with
      | None => Ok tt
      | Some Help => Exit 0
      | Some BadThrottle => Exit 1
      end /\
    out (snd (option_loop rets w)) =
      (out w ++ match first_stop rets with
                | None => []
                | Some Help => usage_text
                | Some BadThrottle => [Print stderr throttle_msg]
                end)%list.
Proof.
  induction 1 as [|r rest Hk _ IH]; intros w.
  - cbn. rewrite app_nil_r. auto.
  - cbn [option_loop first_stop].
    rewrite bind_unfold, apply_store_run, bind_unfold.
    set (w1 := World _ _).
    destruct (stops r) as [s|] eqn:Hs.
    + destruct (handle_option_stops r w1 s Hs) as [H1 H2].
      destruct (handle_option r w1) as [[]] eqn:E; cbn in H1, H2 |- *;
        try discriminate; destruct s; inversion H1; subst; auto.
    + destruct (handle_option_passes r w1 Hk Hs) as [H1 H2].
      destruct (handle_option r w1) as [[] w2] eqn:E; cbn in H1, H2;
        try discriminate.
      destruct (IH w2) as [H3 H4]. rewrite H2 in H4. auto.
Qed.

(** An iteration leaves alone every global it does not [touch]. *)
Lemma apply_store_frame x r w :
  touches x r = false ->
  load x (gl (snd (apply_store r w))) = load x (gl w).
Proof.
  unfold touches. intros H. apply orb_false_iff in H as [H _].
  rewrite apply_store_run. cbn [snd gl].
  destruct (stored r) as [[y v]|]; [|reflexivity].
  apply load_store_ne. intros ->. rewrite bool_decide_eq_true_2 in H; done.
Qed.

Lemma handle_option_frame x r w :
  touches x r = false ->
  load x (gl (snd (handle_option r w))) = load x (gl w).
Proof.
  unfold touches. intros H. apply orb_false_iff in H as [_ H].
  unfold handle_option.
  destruct (opt r =? 0); [reflexivity|].
  destruct (opt r =? chr "d") eqn:Ed.
  { cbn. apply load_store_ne. intros ->. congruence. }
  destruct (opt r =? chr "h") eqn:Eh.
  { cbn. apply load_store_ne. intros ->. congruence. }
  destruct (opt r =? chr "b").
  { cbn. apply load_store_perf_base. }
  destruct (opt r =? chr "t") eqn:Et.
  { assert (x <> V_throttle) by (intros ->; congruence).
    run_monad. rewrite load_store_eq.
    destruct (_ || _); run_monad; by apply load_store_ne. }
  destruct (opt r =? chr "s") eqn:Es.
  { assert (x <> V_sort_peak) by (intros ->; congruence).
    assert (x <> V_sort_alloc) by (intros ->; congruence).
    destruct (truthy _); [run_monad; by rewrite !load_store_ne|].
    destruct (truthy _); [run_monad; by rewrite !load_store_ne|reflexivity]. }
  destruct (opt r =? chr "?"); run_monad; reflexivity.
Qed.

Lemma option_loop_frame x rets :
  existsb (touches x) rets = false ->
  forall w, load x (gl (snd (option_loop rets w))) = load x (gl w).
Proof.
  induction rets as [|r rest IH]; intros H w; [reflexivity|].
  cbn [existsb] in H. apply orb_false_iff in H as [Hr Hrest].
  cbn [option_loop]. rewrite bind_unfold.
  pose proof (apply_store_frame x r w Hr) as H1.
  destruct (apply_store r w) as [[[]| |] w1]; cbn [snd] in H1 |- *; try exact H1.
  rewrite bind_unfold.
  pose proof (handle_option_frame x r w1 Hr) as H2.
  destruct (handle_option r w1) as [[[]| |] w2]; cbn [snd] in H2 |- *;
    try congruence.
  rewrite (IH Hrest). congruence.
Qed.

(** ** What [getopt_long] can return *)

Lemma find_long_In table nm o : find_long table nm = Some o -> In o table.
Proof.
  unfold find_long.
  destruct (List.filter _ table) as [|o1 l1] eqn:E1.
  - destruct (List.filter (fun o => String.prefix nm (name o)) table)
      as [|o2 [|o3 l2]] eqn:E2; try discriminate.
    intros [= <-].
    assert (Hin : In o2 (List.filter (fun o => String.prefix nm (name o)) table))
      by (rewrite E2; left; reflexivity).
    apply List.filter_In in Hin. tauto.
  - intros [= <-].
    assert (Hin : In o1 (List.filter (fun o => String.eqb (name o) nm) table))
      by (rewrite E1; left; reflexivity).
    apply List.filter_In in Hin. tauto.
Qed.

Lemma matched_known o arg :
  In o long_options -> known (opt (matched o arg)) = true.
Proof.
  intros H.
  repeat (destruct H as [H|H]; [subst o; reflexivity|]). destruct H.
Qed.

Lemma find_short_known c k :
  find_short optstring c = Some k -> known (chr c) = true.
Proof.
  unfold optstring. cbn [find_short].
  destruct (Ascii.eqb_spec "d" c) as [<-|_]; [reflexivity|]. cbn [andb].
  destruct (Ascii.eqb_spec "b" c) as [<-|_]; [reflexivity|]. cbn [andb].
  destruct (Ascii.eqb_spec ":" c) as [<-|_]; [cbn; discriminate|]. cbn [andb].
  destruct (Ascii.eqb_spec "h" c) as [<-|_]; [reflexivity|].
  cbn [andb]. discriminate.
Qed.

Lemma scan_cluster_known cl :
  Forall (fun r => known (opt r) = true) (fst (scan_cluster cl)) /\
  forall b, snd (scan_cluster cl) = Some b -> known (chr b) = true.
Proof.
  induction cl as [|c r [IH1 IH2]]; [cbn; split; [constructor|discriminate]|].
  cbn [scan_cluster].
  destruct (find_short optstring c) as [[]|] eqn:E.
  - destruct (scan_cluster r) as [rs w]. cbn in *. split; [|exact IH2].
    constructor; [|exact IH1]. exact (find_short_known _ _ E).
  - destruct r; cbn.
    + split; [constructor|]. intros b [= <-]. exact (find_short_known _ _ E).
    + split; [|discriminate]. constructor; [|constructor].
      exact (find_short_known _ _ E).
  - destruct (scan_cluster r) as [rs w]. cbn in *. split; [|exact IH2].
    constructor; [reflexivity|exact IH1].
Qed.

Lemma getopt_long_known argv :
  Forall (fun r => known (opt r) = true) (getopt_long argv).
Proof.
  remember (length argv) as n eqn:Hn.
  assert (Hle : (length argv <= n)%nat) by lia. clear Hn.
  revert argv Hle. induction n as [|n IH]; intros [|a rest] Hle;
    try (cbn; constructor); cbn in Hle; [lia|].
  assert (Hrest : Forall (fun r => known (opt r) = true) (getopt_long rest))
    by (apply IH; lia).
  cbn [getopt_long]. destruct (classify a) as [| |body|cl].
  - exact Hrest.
  - constructor.
  - destruct (split_eq body) as [nm inline].
    destruct (find_long long_options nm) as [o|] eqn:Ef;
      [|constructor; [reflexivity|exact Hrest]].
    apply find_long_In in Ef.
    destruct (has_arg o), inline as [v|];
      try (constructor; [first [reflexivity | by apply matched_known]|exact Hrest]).
    destruct rest as [|v rest'].
    + constructor; [reflexivity|constructor].
    + constructor; [by apply matched_known|]. apply IH. cbn in Hle. lia.
  - pose proof (scan_cluster_known cl) as [H1 H2].
    destruct (scan_cluster cl) as [rs [b|]]; cbn [fst snd] in H1, H2.
    + destruct rest as [|v rest'].
      * apply Forall_app. split; [exact H1|]. constructor; [reflexivity|constructor].
      * apply Forall_app. split; [exact H1|].
        constructor; [by apply H2|]. apply IH. cbn in Hle. lia.
    + apply Forall_app. split; assumption.
Qed.

(** ** The start-up phases in closed form *)

Lemma configure_unfold argv env :
  configure argv env =
  match option_loop (getopt_long argv) (prelude_world env) with
  | (Ok _, w) => config_checks w
  | (Exit c, w) => (Exit c, w)
  | (Spin l, w) => (Spin l, w)
  end.
Proof. reflexivity. Qed.

Lemma run_unfold argv env :
  run argv env =
  match configure argv env with
  | (Ok _, w) => (privilege_check env ≫= fun _ => start_tracing env) w
  | (Exit c, w) => (Exit c, w)
  | (Spin l, w) => (Spin l, w)
  end.
Proof. reflexivity. Qed.

(** Runs straight-line monadic code over a world whose globals are
    variables, splitting on every test of a variable against zero. *)
Ltac crunch :=
  cbv -[Z.eqb app];
  repeat first
    [ match goal with
      | H : (?x =? 0) = _ |- context [?x =? 0] => rewrite H; cbv -[Z.eqb app]
      end
    | match goal with
      | |- context [?x =? 0] =>
          is_var x; destruct (x =? 0) eqn:?; cbv -[Z.eqb app]
      end ];
  rewrite ?app_nil_r, <- ?app_assoc; reflexivity.

Lemma config_checks_run w :
  config_checks w =
  let g := gl w in
  let o := (out w ++ slab_usage_shown g)%list in
  if truthy (m_perf g) && truthy (m_ftrace g)
  then (Exit EINVAL, World g (o ++ [Print stderr conflict_msg]))
  else
    let g1 := if negb (truthy (m_perf g)) && negb (truthy (m_ftrace g))
              then store V_perf 1 g else g in
    if negb (truthy (m_page g)) && negb (truthy (m_slab g))
    then (Exit EINVAL, World g1 (o ++ [Print stderr subsystem_msg]))
    else (Ok tt, World g1 o).
Proof.
  destruct w as [[dbg hum prf ftr jsn slb pag msc thr smr sal spk pgs base] o].
  crunch.
Qed.

Lemma privilege_check_run env w :
  privilege_check env w =
  if getuid env =? 0 then (Ok tt, w)
  else (Exit EPERM, World (gl w) (out w ++ [Print stderr root_msg])).
Proof.
  destruct w as [[dbg hum prf ftr jsn slb pag msc thr smr sal spk pgs base] o].
  destruct env as [ps uid perr ferr]. crunch.
Qed.

Lemma log_debug_run fmt w :
  log_debug fmt w = (Ok tt, World (gl w) (out w ++ debug_line (gl w) fmt)).
Proof.
  destruct w as [[dbg hum prf ftr jsn slb pag msc thr smr sal spk pgs base] o].
  crunch.
Qed.

Lemma do_exit_run w :
  do_exit w = (Exit 0, World (gl w) (out w ++ cleanups (gl w) ++ [final_report 0])).
Proof.
  destruct w as [[dbg hum prf ftr jsn slb pag msc thr smr sal spk pgs base] o].
  crunch.
Qed.

Lemma on_signal_run w :
  on_signal w =
  (Exit 0, World (gl w)
     (out w ++ debug_line (gl w) "Exiting on signal %d\n" ++
      cleanups (gl w) ++ [final_report 0])).
Proof.
  unfold on_signal. rewrite bind_unfold, log_debug_run, do_exit_run.
  cbn [gl out]. rewrite <- app_assoc. reflexivity.
Qed.

Lemma start_tracing_run env w :
  start_tracing env w =
  let g := gl w in
  if truthy (m_perf g) then
    if truthy (perf_handling_init_ret env)
    then (Exit (perf_handling_init_ret env),
          World g (out w ++ [handling_init Perf;
                             Print stderr "Failed initializing perf event buffer: %s!"]))
    else (Spin Perf,
          World g (out w ++ [handling_init Perf; install_on_signal; perf_handling_start]))
  else if truthy (m_ftrace g) then
    if truthy (ftrace_handling_init_ret env)
    then (Exit (ftrace_handling_init_ret env),
          World g (out w ++ [handling_init Ftrace; Print stderr "Failed to open ftrace: %s!"]))
    else (Spin Ftrace, World g (out w ++ [handling_init Ftrace; install_on_signal]))
  else (Exit 0, World g (out w ++ cleanups g ++ [final_report 0])).
Proof.
  destruct w as [[dbg hum prf ftr jsn slb pag msc thr smr sal spk pgs base] o].
  destruct env as [ps uid perr ferr]. crunch.
Qed.

(** ** How a run ends *)

Lemma first_stop_not_help rets :
  forallb (fun r => negb (opt r =? chr "?")) rets = true ->
  first_stop rets <> Some Help.
Proof.
  induction rets as [|r rest IH]; [discriminate|].
  cbn [forallb first_stop]. intros H. apply andb_true_iff in H as [Hr Hrest].
  unfold stops. destruct (opt r =? chr "?"); [discriminate|].
  destruct (_ && _); [discriminate|]. exact (IH Hrest).
Qed.

Lemma first_stop_help pre r post :
  Forall (fun r' => stops r' <> Some BadThrottle) pre ->
  opt r = chr "?" ->
  first_stop (pre ++ r :: post) = Some Help.
Proof.
  intros Hpre Hr. induction Hpre as [|r' pre Hr' _ IH]; cbn [app first_stop].
  - unfold stops. rewrite Hr. reflexivity.
  - destruct (stops r') as [[]|]; [reflexivity|congruence|exact IH].
Qed.

(** The run up to the end of the option loop. *)
Lemma loop_result argv env :
  let r := option_loop (getopt_long argv) (prelude_world env) in
  fst r = match first_stop (getopt_long argv) with
          | None => Ok tt
          | Some Help => Exit 0
          | Some BadThrottle => Exit 1
          end /\
  out (snd r) =
    (out (prelude_world env) ++
     match first_stop (getopt_long argv) with
     | None => []
     | Some Help => usage_text
     | Some BadThrottle => [Print stderr throttle_msg]
     end)%list /\
  forall x, given x argv = false ->
            load x (gl (snd r)) = load x (gl (prelude_world env)).
Proof.
  cbn zeta.
  destruct (option_loop_outcome _ (getopt_long_known argv) (prelude_world env))
    as [H1 H2].
  repeat split; [exact H1|exact H2|].
  intros x Hx. apply option_loop_frame. exact Hx.
Qed.

Lemma run_stopped argv env s :
  first_stop (getopt_long argv) = Some s ->
  run argv env = option_loop (getopt_long argv) (prelude_world env) /\
  configure argv env = option_loop (getopt_long argv) (prelude_world env).
Proof.
  intros Hs. destruct (loop_result argv env) as [H1 _]. cbn zeta in H1.
  rewrite Hs in H1. rewrite run_unfold, configure_unfold.
  destruct (option_loop _ _) as [[[]| |] w]; cbn [fst] in H1;
    destruct s; try discriminate; auto.
Qed.

Lemma run_parsed argv env :
  first_stop (getopt_long argv) = None ->
  exists w, option_loop (getopt_long argv) (prelude_world env) = (Ok tt, w) /\
            out w = out (prelude_world env) /\
            configure argv env = config_checks w.
Proof.
  intros Hs. destruct (loop_result argv env) as (H1 & H2 & _).
  cbn zeta in H1, H2. rewrite Hs in H1, H2. rewrite app_nil_r in H2.
  rewrite configure_unfold.
  destruct (option_loop _ _) as [[[]| |] w]; cbn [fst snd] in H1, H2;
    try discriminate. eauto.
Qed.

(** * The claims about the orchestrator *)

(** ** C1: [--sort-by] *)

Lemma getopt_long_sort_by arg rest :
  getopt_long ("--sort-by" :: arg :: rest) = sort_by arg :: getopt_long rest.
Proof. reflexivity. Qed.

(** C1: [--sort-by peak] should leave [m_sort_peak] set and [--sort-by
    alloc] should leave [m_sort_alloc] set.  The code does the reverse:
    the two [strcmp] results are used without negation, so in whatever
    state the loop reaches [--sort-by peak] it clears [m_sort_peak] and
    sets [m_sort_alloc], and for [--sort-by alloc] it sets [m_sort_peak]
    and clears [m_sort_alloc]; the last two parts run the program on
    [--page --sort-by peak] and on [--page --sort-by alloc]. *)
Theorem sort_by_sets_the_other_flag :
  (forall rest w,
     option_loop (getopt_long ("--sort-by" :: "peak" :: rest)) w =
     option_loop (getopt_long rest)
       (World (store V_sort_alloc 1 (store V_sort_peak 0 (gl w))) (out w))) /\
  (forall rest w,
     option_loop (getopt_long ("--sort-by" :: "alloc" :: rest)) w =
     option_loop (getopt_long rest)
       (World (store V_sort_alloc 0 (store V_sort_peak 1 (gl w))) (out w))) /\
  (let g := globals_of (run ["--page"; "--sort-by"; "peak"] root_env) in
   m_sort_peak g = 0 /\ m_sort_alloc g = 1) /\
  (let g := globals_of (run ["--page"; "--sort-by"; "alloc"] root_env) in
   m_sort_peak g = 1 /\ m_sort_alloc g = 0).
Proof.
  split; [|split; [|split; vm_compute; auto]].
  - intros rest w. rewrite getopt_long_sort_by. cbn [option_loop].
    rewrite bind_unfold, apply_store_run, bind_unfold.
    rewrite handle_option_sort_by by reflexivity. destruct w; reflexivity.
  - intros rest w. rewrite getopt_long_sort_by. cbn [option_loop].
    rewrite bind_unfold, apply_store_run, bind_unfold.
    rewrite handle_option_sort_by by reflexivity. destruct w; reflexivity.
Qed.

(** ** C3: invalid and conflicting options *)

(** C3: an unrecognised option should end the process with a non-zero
    status.  [getopt_long] returns ['?'] for it, the value the table
    gives to [--help], so [main] prints the usage text and calls
    [exit(0)]; the [default:] branch with [exit(1)] is never reached.
    Shown for [--bogus] followed by anything, under any environment.
    The conflict of [--ftrace] with [--perf] is reported as the claim
    says: status [EINVAL], no adapter initialised. *)
Theorem unrecognised_option_exits_with_0 :
  (forall rest env,
     status_of (run ("--bogus" :: rest) env) = Exit 0 /\
     actions_of (run ("--bogus" :: rest) env) =
       (out (prelude_world env) ++ usage_text)%list) /\
  (forall env,
     status_of (run ["--ftrace"; "--perf"] env) = Exit EINVAL /\
     adapter_initialised (actions_of (run ["--ftrace"; "--perf"] env)) = false).
Proof.
  split.
  - intros rest env.
    assert (Hs : first_stop (getopt_long ("--bogus" :: rest)) = Some Help)
      by reflexivity.
    destruct (run_stopped _ env _ Hs) as [-> _].
    destruct (loop_result ("--bogus" :: rest) env) as (H1 & H2 & _).
    cbn zeta in H1, H2. rewrite Hs in H1, H2. split; assumption.
  - intros env. split; reflexivity.
Qed.

(** ** C8: the range check of [--throttle] *)

Lemma getopt_long_throttle arg rest :
  getopt_long ("--throttle" :: arg :: rest) = throttle arg :: getopt_long rest /\
  getopt_long (("--throttle=" ++ arg)%string :: rest) = throttle arg :: getopt_long rest.
Proof. split; reflexivity. Qed.

(** C8: when the option loop handles a [--throttle] whose argument
    parses (with [atoi]) to a value outside 0..100, the process prints
    an error on the diagnostic stream and exits with status 1, whatever
    follows on the command line; when the value is within 0..100 it
    becomes [m_throttle] and the loop goes on with the next option.
    [rets] are the returns of [getopt_long] that follow; the last part
    is the run of [memstrack --throttle arg ...]. *)
Theorem throttle_range_is_checked (arg : string) (rets : list getopt_ret) (w : world) :
  (atoi arg < 0 \/ 100 < atoi arg ->
   option_loop (throttle arg :: rets) w =
   (Exit 1, World (store V_throttle (atoi arg) (gl w))
                  (out w ++ [Print stderr throttle_msg]))) /\
  (0 <= atoi arg <= 100 ->
   option_loop (throttle arg :: rets) w =
   option_loop rets (World (store V_throttle (atoi arg) (gl w)) (out w))) /\
  (atoi arg < 0 \/ 100 < atoi arg ->
   forall rest env, status_of (run ("--throttle" :: arg :: rest) env) = Exit 1).
Proof.
  assert (Hstep : forall w',
    option_loop (throttle arg :: rets) w' =
    match handle_option (throttle arg) w' with
    | (Ok _, w'') => option_loop rets w''
    | (Exit c, w'') => (Exit c, w'')
    | (Spin l, w'') => (Spin l, w'')
    end).
  { intros [g' o']. reflexivity. }
  assert (Hbad : atoi arg < 0 \/ 100 < atoi arg -> out_of_range (atoi arg) = true).
  { intros Hv. unfold out_of_range. apply orb_true_iff.
    destruct Hv; [left|right]; apply Z.ltb_lt; assumption. }
  split; [|split].
  - intros Hv. rewrite Hstep, handle_option_throttle by reflexivity.
    cbn zeta. change (optarg_of (throttle arg)) with arg.
    rewrite (Hbad Hv). reflexivity.
  - intros Hv.
    assert (Hr : out_of_range (atoi arg) = false).
    { unfold out_of_range. apply orb_false_iff. split; apply Z.ltb_ge; lia. }
    rewrite Hstep, handle_option_throttle by reflexivity.
    cbn zeta. change (optarg_of (throttle arg)) with arg. rewrite Hr.
    reflexivity.
  - intros Hv rest env.
    assert (Hs : first_stop (getopt_long ("--throttle" :: arg :: rest))
                 = Some BadThrottle).
    { destruct (getopt_long_throttle arg rest) as [-> _].
      cbn [first_stop]. unfold stops.
      change (optarg_of (throttle arg)) with arg. rewrite (Hbad Hv). reflexivity. }
    destruct (run_stopped _ env _ Hs) as [Hrun _]. unfold status_of.
    rewrite Hrun.
    destruct (loop_result ("--throttle" :: arg :: rest) env) as [H1 _].
    cbn zeta in H1. rewrite Hs in H1. exact H1.
Qed.

Lemma throttle_range_is_checked_witness :
  option_loop (throttle "101" :: getopt_long ["--page"]) (prelude_world root_env) =
  (Exit 1, World (store V_throttle 101 (gl (prelude_world root_env)))
                 (out (prelude_world root_env) ++ [Print stderr throttle_msg])) /\
  option_loop (throttle "25" :: getopt_long ["--page"]) (prelude_world root_env) =
  option_loop (getopt_long ["--page"])
    (World (store V_throttle 25 (gl (prelude_world root_env)))
           (out (prelude_world root_env))) /\
  status_of (run ["--throttle"; "-3"; "--page"] root_env) = Exit 1.
Proof.
  split; [|split].
  - apply (throttle_range_is_checked "101" (getopt_long ["--page"])
             (prelude_world root_env)).
    right. vm_compute. reflexivity.
  - apply (throttle_range_is_checked "25" (getopt_long ["--page"])
             (prelude_world root_env)).
    vm_compute. split; discriminate.
  - apply (throttle_range_is_checked "-3" [] (prelude_world root_env)).
    left. vm_compute. reflexivity.
Defined.

(** ** C6: at least one of [--page] and [--slab] *)

Lemma not_initialised_app l1 l2 :
  adapter_initialised (l1 ++ l2) =
  adapter_initialised l1 || adapter_initialised l2.
Proof. apply existsb_app. Qed.

Lemma slab_usage_not_init g : adapter_initialised (slab_usage_shown g) = false.
Proof. unfold slab_usage_shown. destruct (truthy _); reflexivity. Qed.

(** A run that ends inside [configure] has initialised no adapter. *)
Lemma configure_initialises_nothing argv env :
  adapter_initialised (actions_of (configure argv env)) = false.
Proof.
  unfold actions_of.
  destruct (first_stop (getopt_long argv)) as [s|] eqn:Hs.
  - destruct (run_stopped argv env s Hs) as [_ ->].
    destruct (loop_result argv env) as (_ & H2 & _). cbn zeta in H2.
    rewrite H2, Hs, not_initialised_app. destruct s; reflexivity.
  - destruct (run_parsed argv env Hs) as (w & _ & Ho & ->).
    rewrite config_checks_run. cbn zeta.
    destruct (_ && _); [|destruct (_ && _)]; cbn [snd out];
      rewrite ?not_initialised_app, Ho, slab_usage_not_init; reflexivity.
Qed.

Lemma run_of_configure_exit argv env c :
  status_of (configure argv env) = Exit c ->
  run argv env = configure argv env.
Proof.
  unfold status_of. rewrite run_unfold.
  destruct (configure argv env) as [[[]| |] w]; cbn [fst]; congruence.
Qed.

(** C6, counterexample: [memstrack --help] gives neither [--page] nor
    [--slab], and exits with status 0. *)
Lemma help_alone_exits_with_0 : ~ subsystem_claim ["--help"] user_env.
Proof.
  intros H. destruct H as (c & Hc & Hnz & _); [reflexivity|reflexivity|].
  vm_compute in Hc. congruence.
Qed.

(** C6, amended: for every invocation where neither [--page] nor [--slab]
    is given and [getopt_long] never returns ['?'] (no [--help], no
    rejected option), the process prints an error on the diagnostic
    stream and exits with a non-zero status before any tracing adapter
    is initialised. *)
Theorem missing_subsystem_fails_fast (argv : list string) (env : environment) :
  no_question_mark argv = true -> subsystem_claim argv env.
Proof.
  intros Hq Hpage Hslab.
  pose proof (first_stop_not_help _ Hq) as Hnh.
  pose proof (configure_initialises_nothing argv env) as Hni.
  destruct (first_stop (getopt_long argv)) as [[]|] eqn:Hs; [congruence| |].
  - (* an out-of-range --throttle comes first *)
    destruct (run_stopped argv env _ Hs) as [Hrun Hcfg].
    destruct (loop_result argv env) as (H1 & H2 & _). cbn zeta in H1, H2.
    rewrite Hs in H1, H2. exists 1. unfold status_of, actions_of in *.
    rewrite Hrun. rewrite Hcfg in Hni. repeat split; try done.
    exists throttle_msg. rewrite H2. apply in_or_app. right. left. reflexivity.
  - (* the loop ends; the checks of lines 204-216 follow *)
    destruct (run_parsed argv env Hs) as (w & Hloop & Ho & Hcfg).
    destruct (loop_result argv env) as (_ & _ & Hframe). cbn zeta in Hframe.
    rewrite Hloop in Hframe. cbn [snd] in Hframe.
    pose proof (Hframe V_page Hpage) as Hp.
    pose proof (Hframe V_slab Hslab) as Hl. cbn in Hp, Hl.
    assert (Hexit : exists msg, configure argv env =
              (Exit EINVAL, World (gl (snd (configure argv env)))
                 ((out w ++ slab_usage_shown (gl w)) ++ [Print stderr msg]))).
    { rewrite Hcfg, config_checks_run. cbn zeta. rewrite Hp, Hl. cbn [truthy Z.eqb negb andb].
      destruct (_ && _); eexists; reflexivity. }
    destruct Hexit as [msg Hexit].
    assert (Hst : status_of (configure argv env) = Exit EINVAL)
      by (unfold status_of; rewrite Hexit; reflexivity).
    rewrite (run_of_configure_exit _ _ _ Hst).
    exists EINVAL. repeat split; try done.
    exists msg. unfold actions_of. rewrite Hexit. cbn [snd out].
    apply in_or_app. right. left. reflexivity.
Qed.

Lemma missing_subsystem_fails_fast_witness : fails_fast (run ["--json"] user_env).
Proof.
  apply (missing_subsystem_fails_fast ["--json"] user_env); reflexivity.
Defined.

(** ** C7: the privilege check *)

Lemma run_of_configure_ok argv env :
  status_of (configure argv env) = Ok tt ->
  run argv env =
  (privilege_check env ≫= fun _ => start_tracing env) (snd (configure argv env)).
Proof.
  unfold status_of. rewrite run_unfold.
  destruct (configure argv env) as [[[]| |] w]; cbn [fst snd]; congruence.
Qed.

Lemma run_not_root argv env :
  getuid env <> 0 -> status_of (configure argv env) = Ok tt ->
  run argv env =
  (Exit EPERM, World (globals_of (configure argv env))
                     (actions_of (configure argv env) ++ [Print stderr root_msg])).
Proof.
  intros Huid Hcfg. rewrite (run_of_configure_ok _ _ Hcfg).
  rewrite bind_unfold, privilege_check_run.
  apply Z.eqb_neq in Huid. rewrite Huid. reflexivity.
Qed.

(** C7, counterexample: a non-root [memstrack --page] exits with status
    1, and so does the configuration error [memstrack --throttle 101]. *)
Lemma privilege_status_is_shared : ~ privilege_claim ["--page"] user_env.
Proof.
  intros H. destruct H as (c & Hc & _ & Hother); [discriminate|reflexivity|].
  vm_compute in Hc. injection Hc as <-.
  apply (Hother ["--throttle"; "101"] root_env). split; [reflexivity|discriminate].
Qed.

(** Every configuration error is the range error of [--throttle], with
    status 1, or one of the two checks that follow the option loop, with
    status [EINVAL]. *)
Lemma configuration_error_cases argv env c :
  configuration_error argv env c ->
  (first_stop (getopt_long argv) = Some BadThrottle /\ c = 1) \/
  (first_stop (getopt_long argv) = None /\ c = EINVAL).
Proof.
  unfold configuration_error, status_of. intros [Hc Hnz].
  destruct (first_stop (getopt_long argv)) as [s|] eqn:Hs.
  - destruct (run_stopped argv env s Hs) as [_ Hcfg].
    destruct (loop_result argv env) as (H1 & _). cbn zeta in H1.
    rewrite Hs, <- Hcfg, Hc in H1.
    destruct s; injection H1 as H1; [contradiction|left; auto].
  - right. split; [reflexivity|].
    destruct (run_parsed argv env Hs) as (w & _ & _ & Hcfg).
    rewrite Hcfg, config_checks_run in Hc. cbn zeta in Hc.
    destruct (_ && _); [cbn [fst] in Hc; congruence|].
    destruct (_ && _); cbn [fst] in Hc; congruence.
Qed.

(** C7, amended: for every invocation by a non-root user whose
    configuration is valid, the process prints an error and exits with
    status [EPERM] before any adapter is initialised; [EPERM] is not
    zero.  Every configuration error is either the range error of
    [--throttle], whose status is that same [EPERM], or the conflict of
    the two adapters or the missing subsystem, whose status is [EINVAL]
    and not [EPERM]: the status of the privilege error is shared with
    the range error and with no other configuration error. *)
Theorem non_root_exits_with_EPERM (argv : list string) (env : environment) :
  getuid env <> 0 -> status_of (configure argv env) = Ok tt ->
  status_of (run argv env) = Exit EPERM /\
  actions_of (run argv env) =
    (actions_of (configure argv env) ++ [Print stderr root_msg])%list /\
  adapter_initialised (actions_of (run argv env)) = false /\
  EPERM <> 0 /\
  forall argv' env' c,
    configuration_error argv' env' c ->
    (first_stop (getopt_long argv') = Some BadThrottle /\ c = EPERM /\
     actions_of (configure argv' env') =
       (out (prelude_world env') ++ [Print stderr throttle_msg])%list) \/
    (first_stop (getopt_long argv') = None /\ c = EINVAL /\ c <> EPERM).
Proof.
  intros Huid Hcfg. rewrite (run_not_root _ _ Huid Hcfg).
  split; [reflexivity|]. split; [reflexivity|]. split.
  { unfold actions_of at 1. cbn [snd out].
    rewrite not_initialised_app, configure_initialises_nothing. reflexivity. }
  split; [discriminate|].
  intros argv' env' c Herr.
  destruct (configuration_error_cases argv' env' c Herr) as [[Hs ->]|[Hs ->]].
  - left. split; [exact Hs|]. split; [reflexivity|].
    destruct (run_stopped argv' env' _ Hs) as [_ Hc'].
    destruct (loop_result argv' env') as (_ & H2 & _). cbn zeta in H2.
    rewrite Hs in H2. unfold actions_of. rewrite Hc'. exact H2.
  - right. split; [exact Hs|]. split; [reflexivity|discriminate].
Qed.

Lemma non_root_exits_with_EPERM_witness :
  status_of (run ["--slab"; "--ftrace"] user_env) = Exit EPERM /\
  configuration_error ["--perf"; "--ftrace"] root_env EINVAL /\
  ~ configuration_error ["--perf"; "--ftrace"] root_env EPERM.
Proof.
  destruct (non_root_exits_with_EPERM ["--slab"; "--ftrace"] user_env)
    as (Hstatus & _ & _ & _ & Hothers); [discriminate|reflexivity|].
  split; [exact Hstatus|]. split; [split; [reflexivity|discriminate]|].
  intros Hc. destruct (Hothers _ _ _ Hc) as [(Hs & _)|(_ & Heq & _)];
    discriminate.
Defined.

(** ** C9: [--help] *)

Lemma getopt_long_help rest :
  getopt_long ("--help" :: rest) =
  {| opt := chr "?"; optarg := None; stored := None |} :: getopt_long rest.
Proof. reflexivity. Qed.

(** C9, counterexample: [memstrack --throttle 101 --help] contains
    [--help] and exits with status 1 at the range check. *)
Lemma help_after_bad_throttle :
  In "--help" ["--throttle"; "101"; "--help"] /\
  ~ help_claim ["--throttle"; "101"; "--help"] root_env.
Proof.
  split; [right; right; left; reflexivity|].
  intros [H _]. vm_compute in H. discriminate.
Qed.

(** C9, amended: for every invocation in which the option scan comes to
    [--help] (a return of ['?']) and no [--throttle] handled before it is
    out of range, the process prints the usage text and exits with
    status 0 without initialising any tracing adapter. *)
Theorem help_prints_usage_and_exits_0
    (argv : list string) (env : environment) (pre post : list getopt_ret)
    (r : getopt_ret) :
  getopt_long argv = (pre ++ r :: post)%list ->
  opt r = chr "?" ->
  Forall (fun r' => stops r' <> Some BadThrottle) pre ->
  help_claim argv env.
Proof.
  intros Hsplit Hr Hpre.
  assert (Hs : first_stop (getopt_long argv) = Some Help)
    by (rewrite Hsplit; apply first_stop_help; assumption).
  destruct (run_stopped argv env _ Hs) as [Hrun Hcfg].
  destruct (loop_result argv env) as (H1 & H2 & _). cbn zeta in H1, H2.
  rewrite Hs in H1, H2.
  pose proof (configure_initialises_nothing argv env) as Hni.
  unfold help_claim, status_of, actions_of in *. rewrite Hrun.
  rewrite Hcfg in Hni. eauto.
Qed.

Lemma help_prints_usage_and_exits_0_witness :
  help_claim ["--slab"; "--throttle"; "30"; "--help"; "--perf"] user_env.
Proof.
  apply (help_prints_usage_and_exits_0
           ["--slab"; "--throttle"; "30"; "--help"; "--perf"] user_env
           (getopt_long ["--slab"; "--throttle"; "30"])
           (getopt_long ["--perf"])
           {| opt := chr "?"; optarg := None; stored := None |}).
  - reflexivity.
  - reflexivity.
  - repeat constructor; vm_compute; discriminate.
Defined.

(** ** Adapters that are not initialised *)

Lemma not_initialised_not_In l a :
  adapter_initialised l = false -> ~ In (handling_init a) l.
Proof.
  unfold adapter_initialised. intros H Hin.
  assert (existsb is_init l = true) by (apply existsb_exists; eauto).
  congruence.
Qed.

(** ** C4: shutdown on SIGINT *)

(** C4, counterexample: a session started with [--page] in which SIGINT
    arrives while [perf_handling_process] is running produces its report
    inside that call. *)
Lemma report_inside_processing :
  exists s, start_session ["--page"] root_env = Some s /\
            ~ cooperative_claim [enter_process; SIGINT] s.
Proof.
  eexists. split; [reflexivity|]. intros H. vm_compute in H. discriminate.
Qed.

(** C4, amended: when SIGINT is delivered to a running session, at
    whatever point of the processing loop, the handler itself logs at
    debug level, cleans up the selected adapter, calls
    [final_report(&TaskMap, 0)] and exits with status 0; no global is
    written (there is no termination flag), a processing call that was
    in progress stays unfinished, and nothing happens afterwards. *)
Theorem sigint_reports_and_exits_at_once (s : session) :
  ended s = None ->
  let s' := session_step SIGINT s in
  ended s' = Some 0 /\
  gl (sw s') = gl (sw s) /\
  inside s' = inside s /\
  out (sw s') =
    (out (sw s) ++ debug_line (gl (sw s)) "Exiting on signal %d\n" ++
     cleanups (gl (sw s)) ++ [final_report 0])%list /\
  forall t, session_step t s' = s'.
Proof.
  intros Hrun. unfold session_step at 1. rewrite Hrun, on_signal_run.
  cbn zeta. cbn [ended sw gl out inside]. repeat split.
Qed.

Lemma sigint_reports_and_exits_at_once_witness :
  ended (session_step SIGINT busy_session) = Some 0 /\
  inside (session_step SIGINT busy_session) = true.
Proof.
  split; [apply (sigint_reports_and_exits_at_once busy_session)|]; reflexivity.
Defined.

(** * Properties of the engine *)

Local Close Scope string_scope.

Lemma nodes_unfold n : nodes n = n :: flat_map nodes (children n).
Proof. destruct n; reflexivity. Qed.

Lemma walk_unfold pre n :
  walk pre n =
  (pre ++ [frame_id n], n) :: flat_map (walk (pre ++ [frame_id n])) (children n).
Proof. destruct n; reflexivity. Qed.

(** Induction on a node with the hypothesis for all its children. *)
Lemma CallSiteNode_rect_children (Q : CallSiteNode -> Prop) :
  (forall n, Forall Q (children n) -> Q n) -> forall n, Q n.
Proof.
  intros H. fix IH 1. intros [f cs c p a fr]. apply H. cbn [children].
  induction cs as [|c' cs IHcs]; constructor; [apply IH|exact IHcs].
Qed.

(** [walk] visits exactly the nodes of [nodes], whatever the prefix. *)
Lemma walk_nodes n : forall pre, map snd (walk pre n) = nodes n.
Proof.
  induction n as [n IH] using CallSiteNode_rect_children. intros pre.
  rewrite walk_unfold, nodes_unfold. cbn [map snd]. f_equal.
  generalize (pre ++ [frame_id n]). intros here.
  induction IH as [|c cs Hc _ IHcs]; [reflexivity|].
  cbn [flat_map]. rewrite map_app, Hc, IHcs. reflexivity.
Qed.

Lemma walk_in_nodes pre p n n' : In (p, n') (walk pre n) -> In n' (nodes n).
Proof.
  intros H. rewrite <- (walk_nodes n pre).
  change n' with (snd (p, n')). apply in_map. exact H.
Qed.

Section Below.

Implicit Types (n c : CallSiteNode) (cs : list CallSiteNode).

Variable P : CallSiteNode -> Prop.
Hypothesis P_fresh : forall f, P (new_node f).
Hypothesis P_with_children : forall n cs, P n -> P (with_children n cs).

Lemma all_below_intro n :
  P n -> (forall c, In c (children n) -> all_below P c) -> all_below P n.
Proof.
  intros Hn Hcs n'. rewrite nodes_unfold. intros [<-|H]; [exact Hn|].
  apply in_flat_map in H as (c & Hc & Hin). exact (Hcs c Hc _ Hin).
Qed.

Lemma all_below_here n : all_below P n -> P n.
Proof. intros H. apply H. rewrite nodes_unfold. left. reflexivity. Qed.

Lemma all_below_child n c : all_below P n -> In c (children n) -> all_below P c.
Proof.
  intros H Hc n' Hin. apply H. rewrite nodes_unfold. right.
  apply in_flat_map. exists c. split; assumption.
Qed.

Lemma all_below_fresh f : all_below P (new_node f).
Proof. intros n' [<-|[]]. apply P_fresh. Qed.

Lemma upsert_all_below f upd cs :
  (forall c, all_below P c -> all_below P (upd c)) ->
  (forall c, In c cs -> all_below P c) ->
  forall c, In c (upsert f upd cs) -> all_below P c.
Proof.
  intros Hupd. induction cs as [|c0 cs IH]; intros Hcs c; cbn [upsert].
  - intros [<-|[]]. apply Hupd, all_below_fresh.
  - destruct (frame_id c0 =? f).
    + intros [<-|H]; [apply Hupd, Hcs; left; reflexivity|].
      apply Hcs. right. exact H.
    + intros [<-|H]; [apply Hcs; left; reflexivity|].
      apply IH; [|exact H]. intros c' Hc'. apply Hcs. right. exact Hc'.
Qed.

(** The walk of [ingest] keeps [P] everywhere if the update of the
    terminal node does. *)
Lemma at_stack_all_below stack upd :
  (forall n, all_below P n -> all_below P (upd n)) ->
  forall n, all_below P n -> all_below P (at_stack stack upd n).
Proof.
  intros Hupd. induction stack as [|f rest IH]; intros n Hn; cbn [at_stack].
  - apply Hupd, Hn.
  - apply all_below_intro.
    + apply P_with_children, all_below_here, Hn.
    + cbn [with_children children]. apply upsert_all_below; [exact IH|].
      intros c Hc. exact (all_below_child n c Hn Hc).
Qed.

(** An update that keeps the children and keeps [P] at the node keeps it
    below the node too. *)
Lemma keeps_children_all_below upd :
  (forall n, children (upd n) = children n) ->
  (forall n, P n -> P (upd n)) ->
  forall n, all_below P n -> all_below P (upd n).
Proof.
  intros Hch HP n Hn. apply all_below_intro.
  - apply HP, all_below_here, Hn.
  - rewrite Hch. intros c Hc. exact (all_below_child n c Hn Hc).
Qed.

End Below.

(** ** The accounting invariant *)

Lemma balanced_fresh f : balanced (new_node f).
Proof. unfold balanced. cbn. lia. Qed.

Lemma balanced_with_children n cs : balanced n -> balanced (with_children n cs).
Proof. exact id. Qed.

Lemma balanced_on_alloc size n : 0 <= size -> balanced n -> balanced (on_alloc size n).
Proof. unfold balanced, on_alloc. cbn. lia. Qed.

Lemma balanced_on_free size n : 0 <= size -> balanced n -> balanced (on_free size n).
Proof. unfold balanced, on_free. cbn. lia. Qed.

Lemma ingest_balanced e eng :
  forest_balanced (forest eng) -> forest_balanced (forest (ingest e eng)).
Proof.
  intros Hinv.
  assert (Hroot : all_below balanced (root_of (forest eng) (origin e))).
  { unfold root_of. destruct (forest eng !! origin e) as [r|] eqn:E; cbn.
    - exact (Hinv _ _ E).
    - apply all_below_fresh, balanced_fresh. }
  assert (Hsize : 0 <= Z.of_N (size_bytes e)) by lia.
  assert (Hnew : forall upd,
            (forall n, children (upd n) = children n) ->
            (forall n, balanced n -> balanced (upd n)) ->
            forest_balanced
              (<[origin e := at_stack (call_stack e) upd
                               (root_of (forest eng) (origin e))]> (forest eng))).
  { intros upd Hch Hupd o root. rewrite lookup_insert.
    case_decide as Ho.
    - intros [= <-].
      apply (at_stack_all_below balanced balanced_fresh balanced_with_children);
        [|exact Hroot].
      apply keeps_children_all_below; assumption.
    - apply Hinv. }
  unfold ingest. destruct (kind e); cbn [forest].
  - apply Hnew; [reflexivity|]. intros n. apply balanced_on_alloc, Hsize.
  - apply Hnew; [reflexivity|]. intros n. apply balanced_on_free, Hsize.
Qed.

Lemma ingest_all_balanced es eng :
  forest_balanced (forest eng) -> forest_balanced (forest (ingest_all es eng)).
Proof.
  revert eng. induction es as [|e es IH]; intros eng H; [exact H|].
  cbn [ingest_all fold_left]. apply IH, ingest_balanced, H.
Qed.

Lemma init_balanced : forest_balanced (forest init).
Proof. intros o root H. cbn in H. rewrite lookup_empty in H. discriminate. Qed.

Lemma in_sites m p n :
  In (p, n) (sites m) <-> exists o root, m !! o = Some root /\ In (p, n) (walk [] root).
Proof.
  unfold sites. rewrite in_flat_map. split.
  - intros ([o root] & Hin & Hw). exists o, root. split; [|exact Hw].
    apply elem_of_map_to_list, list_elem_of_In, Hin.
  - intros (o & root & Hm & Hw). exists (o, root). split; [|exact Hw].
    apply list_elem_of_In, elem_of_map_to_list, Hm.
Qed.

Lemma sites_balanced m p n :
  forest_balanced m -> In (p, n) (sites m) -> balanced n.
Proof.
  intros Hinv Hin. apply in_sites in Hin as (o & root & Hm & Hw).
  apply (Hinv o root Hm). exact (walk_in_nodes _ _ _ _ Hw).
Qed.

(** ** Looking a call stack up after a walk *)

Lemma same_counters_refl n : same_counters n n.
Proof. repeat split. Qed.

Section Lookup.

Variable upd : CallSiteNode -> CallSiteNode.
Hypothesis upd_frame : forall n, frame_id (upd n) = frame_id n.
Hypothesis upd_children : forall n, children (upd n) = children n.

Lemma at_stack_frame stack n : frame_id (at_stack stack upd n) = frame_id n.
Proof. destruct stack; [apply upd_frame|reflexivity]. Qed.

Lemma find_child_upsert_eq f (g : CallSiteNode -> CallSiteNode) cs c :
  (forall n, frame_id (g n) = frame_id n) ->
  find_child f cs = Some c ->
  find_child f (upsert f g cs) = Some (g c).
Proof.
  intros Hg. induction cs as [|c0 cs IH]; [discriminate|].
  cbn [find_child upsert]. destruct (frame_id c0 =? f) eqn:E.
  - intros [= <-]. cbn [find_child]. rewrite Hg, E. reflexivity.
  - intros H. cbn [find_child]. rewrite E. exact (IH H).
Qed.

Lemma find_child_upsert_ne f f' (g : CallSiteNode -> CallSiteNode) cs :
  (forall n, frame_id (g n) = frame_id n) ->
  f <> f' ->
  find_child f' (upsert f g cs) = find_child f' cs.
Proof.
  intros Hg Hne. induction cs as [|c0 cs IH]; cbn [find_child upsert].
  - rewrite Hg. cbn. apply Z.eqb_neq in Hne. rewrite Hne. reflexivity.
  - destruct (frame_id c0 =? f) eqn:E; cbn [find_child].
    + rewrite Hg. apply Z.eqb_eq in E. rewrite E.
      apply Z.eqb_neq in Hne. rewrite Hne. reflexivity.
    + destruct (frame_id c0 =? f'); [reflexivity|exact IH].
Qed.

(** A node that existed before the walk along [stack] is still found at
    its call stack afterwards: updated by [upd] if that call stack is
    [stack], with the counters it had otherwise. *)
Lemma node_at_at_stack stack :
  forall p n m,
    node_at p n = Some m ->
    exists m', node_at p (at_stack stack upd n) = Some m' /\
               if decide (p = stack) then same_counters (upd m) m'
               else same_counters m m'.
Proof.
  induction stack as [|f rest IH]; intros p n m Hm; cbn [at_stack].
  - destruct p as [|f' p'].
    + injection Hm as <-. exists (upd n). split; [reflexivity|].
      rewrite decide_True by reflexivity. apply same_counters_refl.
    + exists m. cbn [node_at] in *. rewrite upd_children. split; [exact Hm|].
      rewrite decide_False by discriminate. apply same_counters_refl.
  - destruct p as [|f' p'].
    + injection Hm as <-. eexists. split; [reflexivity|].
      rewrite decide_False by discriminate. repeat split.
    + cbn [node_at] in Hm |- *. cbn [with_children children].
      destruct (find_child f' (children n)) as [c|] eqn:Ec; [|discriminate].
      destruct (decide (f = f')) as [<-|Hne].
      * rewrite (find_child_upsert_eq f _ _ c (at_stack_frame rest) Ec).
        destruct (IH p' c m Hm) as (m' & Hm' & Hrel). exists m'.
        split; [exact Hm'|].
        destruct (decide (p' = rest)) as [->|Hp].
        -- rewrite decide_True by reflexivity. exact Hrel.
        -- rewrite decide_False by congruence. exact Hrel.
      * rewrite (find_child_upsert_ne f f' _ _ (at_stack_frame rest) Hne), Ec.
        exists m. split; [exact Hm|].
        rewrite decide_False by congruence. apply same_counters_refl.
Qed.

End Lookup.

Lemma find_child_In f cs c : find_child f cs = Some c -> In c cs.
Proof.
  induction cs as [|c0 cs IH]; [discriminate|]. cbn [find_child].
  destruct (frame_id c0 =? f); [intros [= <-]; left; reflexivity|].
  intros H. right. exact (IH H).
Qed.

Lemma node_at_in_nodes p : forall n m, node_at p n = Some m -> In m (nodes n).
Proof.
  induction p as [|f p IH]; intros n m; cbn [node_at]; rewrite nodes_unfold.
  - intros [= <-]. left. reflexivity.
  - destruct (find_child f (children n)) as [c|] eqn:Ec; [|discriminate].
    intros H. right. apply in_flat_map. exists c.
    split; [exact (find_child_In _ _ _ Ec)|exact (IH _ _ H)].
Qed.

(** * The claim about the engine *)

(** ** C5: peak, current and zero *)

(** C5: after any sequence of ingested events, every node of the forest
    has [peak_bytes >= current_bytes >= 0]; and a Free ingested next
    leaves the peak of every existing node as it was, lowers the current
    bytes of the node its call stack ends at by its size, but not below
    zero, and leaves the current bytes of every other node alone. *)
Theorem peak_current_zero (es : list AllocEvent) :
  (forall p n, In (p, n) (sites (forest (ingest_all es init))) ->
               peak_bytes n >= current_bytes n /\ current_bytes n >= 0) /\
  (forall e o stack n,
     kind e = Free ->
     site_at (forest (ingest_all es init)) o stack = Some n ->
     exists n',
       site_at (forest (ingest e (ingest_all es init))) o stack = Some n' /\
       peak_bytes n' = peak_bytes n /\
       current_bytes n' >= 0 /\
       current_bytes n' =
         if decide (o = origin e /\ stack = call_stack e)
         then Z.max 0 (current_bytes n - Z.of_N (size_bytes e))
         else current_bytes n).
Proof.
  pose proof (ingest_all_balanced es init init_balanced) as Hinv.
  set (eng := ingest_all es init) in *. split.
  - intros p n Hin. pose proof (sites_balanced _ _ _ Hinv Hin) as [H0 H1]. lia.
  - intros e o stack n Hk Hn. unfold site_at in Hn |- *.
    destruct (forest eng !! o) as [root|] eqn:Hroot; [|discriminate].
    assert (Hbal : balanced n)
      by (apply (Hinv o root Hroot), (node_at_in_nodes _ _ _ Hn)).
    unfold ingest. rewrite Hk. cbn [forest]. rewrite lookup_insert.
    destruct (decide (origin e = o)) as [Ho|Ho].
    + unfold root_of. rewrite Ho, Hroot. cbn [default].
      destruct (node_at_at_stack (on_free (Z.of_N (size_bytes e)))
                  (fun _ => eq_refl) (fun _ => eq_refl)
                  (call_stack e) stack root n Hn) as (n' & Hn' & Hrel).
      exists n'. split; [exact Hn'|].
      destruct (decide (stack = call_stack e)) as [Hs|Hs].
      * destruct Hrel as (_ & Hc & Hp & _). cbn in Hc, Hp.
        rewrite decide_True by (split; congruence).
        rewrite Hc, Hp. repeat split; lia.
      * destruct Hrel as (_ & Hc & Hp & _).
        rewrite decide_False by (intros [_ ?]; congruence).
        destruct Hbal. rewrite Hc, Hp. repeat split; lia.
    + exists n. rewrite Hroot. split; [exact Hn|].
      rewrite decide_False by (intros [? _]; congruence).
      destruct Hbal. repeat split; lia.
Qed.

Lemma peak_current_zero_witness :
  exists n',
    site_at (forest (ingest {| kind := Free; subsys := Page; size_bytes := 9000;
                               call_stack := [1; 3]; origin := 0 |}
                            (ingest_all scenario init))) 0 [1; 3] = Some n' /\
    peak_bytes n' = 8192 /\ current_bytes n' >= 0 /\ current_bytes n' = 0.
Proof.
  destruct (peak_current_zero scenario) as [_ H].
  apply (H {| kind := Free; subsys := Page; size_bytes := 9000;
              call_stack := [1; 3]; origin := 0 |} 0 [1; 3]
           {| frame_id := 3; children := []; current_bytes := 8192;
              peak_bytes := 8192; alloc_count := 1; free_count := 0 |});
    reflexivity.
Defined.

(** * Further properties of the orchestrator *)

Local Open Scope string_scope.
Local Open Scope Z_scope.

(** ** The returns of [getopt_long], again *)

Lemma matched_table_return o arg :
  In o long_options -> table_return (matched o arg) = true.
Proof.
  intros H.
  repeat (destruct H as [H|H]; [subst o; reflexivity|]). destruct H.
Qed.

Lemma find_short_table_return c k arg :
  find_short optstring c = Some k -> table_return (short_ret c arg) = true.
Proof.
  unfold optstring. cbn [find_short].
  destruct (Ascii.eqb_spec "d" c) as [<-|_]; [reflexivity|]. cbn [andb].
  destruct (Ascii.eqb_spec "b" c) as [<-|_]; [reflexivity|]. cbn [andb].
  destruct (Ascii.eqb_spec ":" c) as [<-|_]; [cbn; discriminate|]. cbn [andb].
  destruct (Ascii.eqb_spec "h" c) as [<-|_]; [reflexivity|].
  cbn [andb]. discriminate.
Qed.

Lemma scan_cluster_table_return cl :
  Forall (fun r => table_return r = true) (fst (scan_cluster cl)) /\
  forall b arg, snd (scan_cluster cl) = Some b ->
                table_return (short_ret b arg) = true.
Proof.
  induction cl as [|c r [IH1 IH2]]; [cbn; split; [constructor|discriminate]|].
  cbn [scan_cluster].
  destruct (find_short optstring c) as [[]|] eqn:E.
  - destruct (scan_cluster r) as [rs w]. cbn in *. split; [|exact IH2].
    constructor; [|exact IH1]. exact (find_short_table_return _ _ _ E).
  - destruct r; cbn.
    + split; [constructor|]. intros b arg [= <-].
      exact (find_short_table_return _ _ _ E).
    + split; [|discriminate]. constructor; [|constructor].
      exact (find_short_table_return _ _ _ E).
  - destruct (scan_cluster r) as [rs w]. cbn in *. split; [|exact IH2].
    constructor; [reflexivity|exact IH1].
Qed.

Lemma getopt_long_table_return argv :
  Forall (fun r => table_return r = true) (getopt_long argv).
Proof.
  remember (length argv) as n eqn:Hn.
  assert (Hle : (length argv <= n)%nat) by lia. clear Hn.
  revert argv Hle. induction n as [|n IH]; intros [|a rest] Hle;
    try (cbn; constructor); cbn in Hle; [lia|].
  assert (Hrest : Forall (fun r => table_return r = true) (getopt_long rest))
    by (apply IH; lia).
  cbn [getopt_long]. destruct (classify a) as [| |body|cl].
  - exact Hrest.
  - constructor.
  - destruct (split_eq body) as [nm inline].
    destruct (find_long long_options nm) as [o|] eqn:Ef;
      [|constructor; [reflexivity|exact Hrest]].
    apply find_long_In in Ef.
    destruct (has_arg o), inline as [v|];
      try (constructor; [first [reflexivity | by apply matched_table_return]|exact Hrest]).
    destruct rest as [|v rest'].
    + constructor; [reflexivity|constructor].
    + constructor; [by apply matched_table_return|]. apply IH. cbn in Hle. lia.
  - pose proof (scan_cluster_table_return cl) as [H1 H2].
    destruct (scan_cluster cl) as [rs [b|]]; cbn [fst snd] in H1, H2.
    + destruct rest as [|v rest'].
      * apply Forall_app. split; [exact H1|]. constructor; [reflexivity|constructor].
      * apply Forall_app. split; [exact H1|].
        constructor; [by apply H2|]. apply IH. cbn in Hle. lia.
    + apply Forall_app. split; assumption.
Qed.

(** ** The flags after the option loop *)

Lemma first_stop_cons_none r rest :
  first_stop (r :: rest) = None -> stops r = None /\ first_stop rest = None.
Proof. cbn [first_stop]. destruct (stops r); [discriminate|auto]. Qed.

(** [handle_option] looks at the value and the argument only. *)
Lemma handle_option_keeps_flags x r w :
  is_flag x = true ->
  load x (gl (snd (handle_option r w))) = load x (gl w).
Proof.
  intros Hx.
  change (handle_option r w)
    with (handle_option {| opt := opt r; optarg := optarg r; stored := None |} w).
  apply handle_option_frame. destruct x; try discriminate; reflexivity.
Qed.

Lemma touches_flag x r :
  is_flag x = true ->
  touches x r = match stored r with
                | Some (y, _) => bool_decide (x = y)
                | None => false
                end.
Proof.
  intros Hx. unfold touches. destruct x; try discriminate; apply orb_false_r.
Qed.

(** One passing iteration: the world after it. *)
Lemma iteration_passes r rest w :
  known (opt r) = true -> stops r = None ->
  exists w2,
    handle_option r (snd (apply_store r w)) = (Ok tt, w2) /\
    out w2 = out w /\
    option_loop (r :: rest) w = option_loop rest w2.
Proof.
  intros Hk Hs. cbn [option_loop]. rewrite bind_unfold, apply_store_run.
  cbn [snd]. rewrite bind_unfold. set (w1 := World _ _).
  destruct (handle_option_passes r w1 Hk Hs) as [H1 H2].
  destruct (handle_option r w1) as [[[]| |] w2]; cbn [fst snd] in H1, H2;
    try discriminate.
  exists w2. auto.
Qed.

Lemma option_loop_flags x rets :
  is_flag x = true ->
  Forall (fun r => table_return r = true) rets ->
  first_stop rets = None ->
  forall w,
    load x (gl (snd (option_loop rets w))) =
    if existsb (touches x) rets then 1 else load x (gl w).
Proof.
  intros Hx Htab. induction Htab as [|r rest Hr _ IH]; intros Hs w; [reflexivity|].
  apply first_stop_cons_none in Hs as [Hs Hrest].
  unfold table_return in Hr. apply andb_true_iff in Hr as [Hk Hr].
  destruct (iteration_passes r rest w Hk Hs) as (w2 & Hw2 & _ & ->).
  rewrite (IH Hrest w2). cbn [existsb]. rewrite (touches_flag x r Hx).
  assert (H2 : load x (gl w2) = load x (gl (snd (apply_store r w)))).
  { rewrite <- (handle_option_keeps_flags x r (snd (apply_store r w)) Hx).
    rewrite Hw2. reflexivity. }
  rewrite H2, apply_store_run. cbn [snd gl].
  destruct (stored r) as [[y v]|]; [|reflexivity].
  apply andb_true_iff in Hr as [Hr _]. apply andb_true_iff in Hr as [Hv _].
  apply Z.eqb_eq in Hv. subst v.
  destruct (decide (x = y)) as [<-|Hne].
  - rewrite bool_decide_eq_true_2 by reflexivity. cbn [orb].
    rewrite load_store_eq. destruct (existsb _ _); reflexivity.
  - rewrite bool_decide_eq_false_2 by exact Hne. cbn [orb].
    rewrite load_store_ne by exact Hne. reflexivity.
Qed.

(** After an option loop that runs to its end, a flag is 1 if its option
    was given and 0 if not. *)
Lemma parsed_flags argv env x :
  is_flag x = true -> first_stop (getopt_long argv) = None ->
  load x (gl (snd (option_loop (getopt_long argv) (prelude_world env)))) =
  if given x argv then 1 else 0.
Proof.
  intros Hx Hs.
  rewrite (option_loop_flags x _ Hx (getopt_long_table_return argv) Hs).
  unfold given. destruct (existsb _ _); [reflexivity|].
  destruct x; try discriminate; reflexivity.
Qed.

Lemma truthy_given (b : bool) : truthy (if b then 1 else 0) = b.
Proof. destruct b; reflexivity. Qed.

(** ** How every run ends *)

Ltac ending_done :=
  unfold ends_as, status_of, actions_of, globals_of, init_ret,
    init_failed_msg, started;
  cbn [fst snd gl out store m_show_misc];
  repeat split; rewrite <- ?app_assoc; try reflexivity.

(** The run and the decision of [ending_of] agree. *)
Lemma run_ending (argv : list string) (env : environment) :
  ends_as env (ending_of argv env) (run argv env).
Proof.
  unfold ending_of.
  destruct (first_stop (getopt_long argv)) as [s|] eqn:Hs.
  - destruct (run_stopped argv env s Hs) as [Hrun _].
    destruct (loop_result argv env) as (H1 & H2 & _). cbn zeta in H1, H2.
    rewrite Hs in H1, H2. rewrite <- Hrun in H1, H2.
    destruct s; split; assumption.
  - destruct (run_parsed argv env Hs) as (w & Hloop & Ho & Hcfg).
    pose proof (parsed_flags argv env V_perf eq_refl Hs) as Hperf.
    pose proof (parsed_flags argv env V_ftrace eq_refl Hs) as Hftrace.
    pose proof (parsed_flags argv env V_page eq_refl Hs) as Hpage.
    pose proof (parsed_flags argv env V_slab eq_refl Hs) as Hslab.
    rewrite Hloop in Hperf, Hftrace, Hpage, Hslab.
    rewrite run_unfold, Hcfg, config_checks_run. cbn zeta. rewrite Ho.
    destruct w as [[dbg hum prf ftr jsn slb pag msc thr smr sal spk pgs base] o].
    cbn [snd gl load m_perf m_ftrace m_page m_slab] in Hperf, Hftrace, Hpage, Hslab.
    subst prf ftr pag slb.
    cbn [gl out m_perf m_ftrace m_page m_slab]. rewrite !truthy_given.
    destruct (given V_perf argv), (given V_ftrace argv); cbn [andb negb];
      [ending_done| | |];
      (destruct (given V_page argv), (given V_slab argv); cbn [andb negb];
       [| | |ending_done]);
      rewrite bind_unfold, privilege_check_run;
      (destruct (getuid env =? 0); cbn [negb]; [|ending_done]);
      rewrite start_tracing_run; cbn zeta; cbn [gl out store m_perf m_ftrace];
      change (truthy 1) with true; change (truthy 0) with false; cbv iota;
      cbn [init_ret];
      match goal with
      | |- context [truthy (?f env)] =>
          destruct (truthy (f env)) eqn:Hinit; unfold truthy in Hinit;
          [apply negb_true_iff, Z.eqb_neq in Hinit
          |apply negb_false_iff, Z.eqb_eq in Hinit]
      end;
      ending_done; exact Hinit.
Qed.

(** ** The globals at the end of a run *)

(** After the option loop only [m_perf] is written, by the default of
    line 210. *)
Lemma run_globals argv env :
  first_stop (getopt_long argv) = None ->
  globals_of (run argv env) =
  let g := gl (snd (option_loop (getopt_long argv) (prelude_world env))) in
  if negb (truthy (m_perf g)) && negb (truthy (m_ftrace g))
  then store V_perf 1 g else g.
Proof.
  intros Hs. destruct (run_parsed argv env Hs) as (w & Hloop & _ & Hcfg).
  rewrite Hloop. cbn [snd]. cbn zeta. unfold globals_of.
  rewrite run_unfold, Hcfg, config_checks_run. cbn zeta.
  destruct (truthy (m_perf (gl w))) eqn:Hp, (truthy (m_ftrace (gl w))) eqn:Hf;
    cbn [andb negb]; try reflexivity;
    (destruct (negb (truthy (m_page (gl w))) && negb (truthy (m_slab (gl w))));
     [reflexivity|]);
    rewrite bind_unfold, privilege_check_run;
    (destruct (getuid env =? 0); [|reflexivity]);
    rewrite start_tracing_run; cbn zeta; cbn [gl out];
    repeat match goal with
           | |- context [if ?b then _ else _] => destruct b
           end; reflexivity.
Qed.

Lemma run_globals_stopped argv env s :
  first_stop (getopt_long argv) = Some s ->
  globals_of (run argv env) =
  gl (snd (option_loop (getopt_long argv) (prelude_world env))).
Proof.
  intros Hs. destruct (run_stopped argv env s Hs) as [-> _]. reflexivity.
Qed.

(** A global other than [m_perf] has at the end of the run the value it
    had at the end of the option loop. *)
Lemma run_keeps x argv env :
  x <> V_perf ->
  load x (globals_of (run argv env)) =
  load x (gl (snd (option_loop (getopt_long argv) (prelude_world env)))).
Proof.
  intros Hx. destruct (first_stop (getopt_long argv)) as [s|] eqn:Hs.
  - rewrite (run_globals_stopped argv env s Hs). reflexivity.
  - rewrite (run_globals argv env Hs). cbn zeta.
    destruct (_ && _); [apply load_store_ne; exact Hx|reflexivity].
Qed.

(** ** What an iteration writes *)

(** The return [r] without its store. *)
Lemma handle_option_ignores_store r w :
  handle_option r w =
  handle_option {| opt := opt r; optarg := optarg r; stored := None |} w.
Proof. reflexivity. Qed.

(** [handle_option] writes [x] only for the option character that goes
    with [x]. *)
Lemma handle_option_keeps x r w :
  touches x {| opt := opt r; optarg := optarg r; stored := None |} = false ->
  load x (gl (snd (handle_option r w))) = load x (gl w).
Proof.
  intros H. rewrite handle_option_ignores_store. apply handle_option_frame, H.
Qed.

(** The store of a return of the table leaves everything but the flags. *)
Lemma apply_store_keeps x r w :
  table_return r = true -> is_flag x = false ->
  load x (gl (snd (apply_store r w))) = load x (gl w).
Proof.
  intros Hr Hx. rewrite apply_store_run. cbn [snd gl].
  unfold table_return in Hr. apply andb_true_iff in Hr as [_ Hr].
  destruct (stored r) as [[y v]|]; [|reflexivity].
  apply andb_true_iff in Hr as [_ Hy].
  apply load_store_ne. intros ->. congruence.
Qed.

Lemma handle_option_debug r w :
  opt r = chr "d" ->
  handle_option r w = (Ok tt, World (store V_debug 1 (gl w)) (out w)).
Proof. intros H. unfold handle_option. rewrite H. eval_tests. reflexivity. Qed.

Lemma handle_option_human r w :
  opt r = chr "h" ->
  handle_option r w = (Ok tt, World (store V_human 1 (gl w)) (out w)).
Proof. intros H. unfold handle_option. rewrite H. eval_tests. reflexivity. Qed.

Lemma handle_option_base r w :
  opt r = chr "b" ->
  handle_option r w =
  (Ok tt, World (store_perf_base (optarg_of r) (gl w)) (out w)).
Proof. intros H. unfold handle_option. rewrite H. eval_tests. reflexivity. Qed.

(** [m_debug] and [m_human] after an option loop that runs to its end. *)
Lemma option_loop_switches x rets :
  x = V_debug \/ x = V_human ->
  Forall (fun r => table_return r = true) rets ->
  first_stop rets = None ->
  forall w,
    load x (gl (snd (option_loop rets w))) =
    if existsb (touches x) rets then 1 else load x (gl w).
Proof.
  intros Hx Htab. induction Htab as [|r rest Hr _ IH]; intros Hs w; [reflexivity|].
  apply first_stop_cons_none in Hs as [Hs Hrest].
  assert (Hk : known (opt r) = true)
    by (unfold table_return in Hr; apply andb_true_iff in Hr; tauto).
  assert (Hnf : is_flag x = false) by (destruct Hx; subst x; reflexivity).
  destruct (iteration_passes r rest w Hk Hs) as (w2 & Hw2 & _ & ->).
  rewrite (IH Hrest w2). cbn [existsb].
  pose proof (apply_store_keeps x r w Hr Hnf) as H1.
  assert (Ht : touches x r =
               touches x {| opt := opt r; optarg := optarg r; stored := None |}).
  { unfold touches. cbn [stored opt]. unfold table_return in Hr.
    apply andb_true_iff in Hr as [_ Hr].
    destruct (stored r) as [[y v]|]; [|reflexivity].
    apply andb_true_iff in Hr as [_ Hy].
    rewrite bool_decide_eq_false_2; [reflexivity|]. intros ->. congruence. }
  rewrite Ht.
  destruct (touches x {| opt := opt r; optarg := optarg r; stored := None |}) eqn:E.
  - cbn [orb].
    assert (H2 : load x (gl w2) = 1).
    { destruct Hx; subst x; cbn in E; apply Z.eqb_eq in E.
      - rewrite (handle_option_debug r _ E) in Hw2. injection Hw2 as <-.
        apply load_store_eq.
      - rewrite (handle_option_human r _ E) in Hw2. injection Hw2 as <-.
        apply load_store_eq. }
    rewrite H2. destruct (existsb _ _); reflexivity.
  - cbn [orb].
    pose proof (handle_option_keeps x r (snd (apply_store r w)) E) as H2.
    rewrite Hw2 in H2. cbn [snd] in H2. rewrite H2, H1. reflexivity.
Qed.

(** ** Invariants of the option loop *)

Lemma option_loop_preserves (I : globals -> Prop) rets :
  (forall r w, In r rets -> I (gl w) -> I (gl (snd (apply_store r w)))) ->
  (forall r w, In r rets -> I (gl w) -> I (gl (snd (handle_option r w)))) ->
  forall w, I (gl w) -> I (gl (snd (option_loop rets w))).
Proof.
  induction rets as [|r rest IH]; intros Hst Hho w Hw; [exact Hw|].
  cbn [option_loop]. rewrite bind_unfold.
  pose proof (Hst r w (or_introl eq_refl) Hw) as H1.
  destruct (apply_store r w) as [[[]| |] w1]; cbn [snd] in H1 |- *; try exact H1.
  rewrite bind_unfold.
  pose proof (Hho r w1 (or_introl eq_refl) H1) as H2.
  destruct (handle_option r w1) as [[[]| |] w2]; cbn [snd] in H2 |- *; try exact H2.
  apply IH; [| |exact H2]; intros r' w' Hin; [apply Hst|apply Hho]; right; exact Hin.
Qed.

Lemma option_loop_one_sort_flag rets :
  Forall (fun r => table_return r = true) rets ->
  forall w, one_sort_flag (gl w) -> one_sort_flag (gl (snd (option_loop rets w))).
Proof.
  intros Htab. apply option_loop_preserves.
  - intros r w Hin Hw. rewrite Forall_forall in Htab.
    unfold one_sort_flag.
    rewrite !apply_store_keeps by (try reflexivity; apply Htab, list_elem_of_In, Hin).
    exact Hw.
  - intros r w _ Hw. unfold one_sort_flag in *.
    destruct (opt r =? chr "s") eqn:Es.
    + apply Z.eqb_eq in Es. rewrite (handle_option_sort_by r w Es).
      destruct (truthy _); cbn [snd gl];
        [right; split;
         [apply load_store_eq|rewrite load_store_ne by discriminate; apply load_store_eq]|].
      destruct (truthy _); cbn [snd gl];
        [left; split;
         [apply load_store_eq|rewrite load_store_ne by discriminate; apply load_store_eq]
        |exact Hw].
    + rewrite !handle_option_keeps by (cbn; rewrite Es; reflexivity). exact Hw.
Qed.

Lemma option_loop_throttle_in_range rets :
  Forall (fun r => table_return r = true) rets ->
  first_stop rets = None ->
  forall w, throttle_in_range (gl w) ->
            throttle_in_range (gl (snd (option_loop rets w))).
Proof.
  intros Htab. induction Htab as [|r rest Hr _ IH]; intros Hs w Hw; [exact Hw|].
  apply first_stop_cons_none in Hs as [Hs Hrest].
  assert (Hk : known (opt r) = true)
    by (unfold table_return in Hr; apply andb_true_iff in Hr; tauto).
  destruct (iteration_passes r rest w Hk Hs) as (w2 & Hw2 & _ & ->).
  apply (IH Hrest). unfold throttle_in_range in *.
  change (m_throttle (gl w2)) with (load V_throttle (gl w2)).
  destruct (opt r =? chr "t") eqn:Et.
  - apply Z.eqb_eq in Et. rewrite (handle_option_throttle r _ Et) in Hw2.
    cbn zeta in Hw2. unfold stops in Hs. rewrite Et in Hs.
    change (chr "t" =? chr "?") with false in Hs. cbn [andb] in Hs.
    destruct (out_of_range (atoi (optarg_of r))) eqn:Hr'; [discriminate|].
    injection Hw2 as <-. cbn [gl]. rewrite load_store_eq.
    unfold out_of_range in Hr'. apply orb_false_iff in Hr' as [H1 H2].
    apply Z.ltb_ge in H1, H2. lia.
  - pose proof (handle_option_keeps V_throttle r (snd (apply_store r w))) as H2.
    rewrite Hw2 in H2. cbn [snd] in H2. rewrite H2 by (cbn; rewrite Et; reflexivity).
    rewrite (apply_store_keeps V_throttle r w Hr eq_refl). exact Hw.
Qed.

(** ** Status and actions of a run *)

Lemma run_status argv env :
  status_of (run argv env) = status_for env (ending_of argv env).
Proof.
  pose proof (run_ending argv env) as H.
  destruct (ending_of argv env); cbn [ends_as status_for] in *; tauto.
Qed.

Lemma run_actions argv env :
  actions_of (run argv env) =
  (out (prelude_world env) ++
   (if parses argv then slab_usage_shown (globals_of (run argv env)) else []) ++
   tail_of (ending_of argv env))%list.
Proof.
  pose proof (run_ending argv env) as H. unfold parses.
  unfold ending_of in *.
  destruct (first_stop (getopt_long argv)) as [[]|].
  - cbn [ends_as tail_of] in *. tauto.
  - cbn [ends_as tail_of] in *. tauto.
  - repeat match type of H with
           | context [if ?b then _ else _] => destruct b
           end; cbn [ends_as tail_of] in *; tauto.
Qed.

(** The flags and switches at the end of a run that parses. *)
Lemma run_switch argv env x :
  (is_flag x = true \/ x = V_debug \/ x = V_human) -> x <> V_perf ->
  first_stop (getopt_long argv) = None ->
  load x (globals_of (run argv env)) = if given x argv then 1 else 0.
Proof.
  intros Hx Hne Hs. rewrite (run_keeps x argv env Hne).
  destruct Hx as [Hx|Hx].
  - apply parsed_flags; assumption.
  - rewrite (option_loop_switches x _ Hx (getopt_long_table_return argv) Hs).
    unfold given. destruct (existsb _ _); [reflexivity|].
    destruct Hx; subst x; reflexivity.
Qed.

Lemma run_perf argv env :
  first_stop (getopt_long argv) = None ->
  m_perf (globals_of (run argv env)) =
  if given V_perf argv || negb (given V_ftrace argv) then 1 else 0.
Proof.
  intros Hs. rewrite (run_globals argv env Hs). cbn zeta.
  pose proof (parsed_flags argv env V_perf eq_refl Hs) as Hp.
  pose proof (parsed_flags argv env V_ftrace eq_refl Hs) as Hf.
  cbn [load] in Hp, Hf. rewrite Hp, Hf, !truthy_given.
  destruct (given V_perf argv), (given V_ftrace argv); cbn [negb andb orb];
    try exact Hp. apply (load_store_eq V_perf).
Qed.

Lemma spin_parses argv env a :
  status_of (run argv env) = Spin a -> first_stop (getopt_long argv) = None.
Proof.
  rewrite run_status. unfold ending_of.
  destruct (first_stop (getopt_long argv)) as [[]|]; [discriminate..|reflexivity].
Qed.

Lemma reports_app l1 l2 : reports (l1 ++ l2) = (reports l1 + reports l2)%nat.
Proof. unfold reports. rewrite List.filter_app, length_app. reflexivity. Qed.

Lemma slab_usage_shown_only g :
  reports (slab_usage_shown g) = 0%nat /\
  existsb is_clean (slab_usage_shown g) = false /\
  existsb is_install (slab_usage_shown g) = false /\
  existsb is_init (slab_usage_shown g) = false /\
  existsb is_slab_usage (slab_usage_shown g) = truthy (m_show_misc g).
Proof. unfold slab_usage_shown. destruct (truthy _); repeat split. Qed.

Lemma shown_only argv env :
  let shown := if parses argv
               then slab_usage_shown (globals_of (run argv env)) else [] in
  reports shown = 0%nat /\
  existsb is_clean shown = false /\
  existsb is_install shown = false /\
  existsb is_init shown = false.
Proof.
  cbn zeta. destruct (parses argv); [|repeat split].
  pose proof (slab_usage_shown_only (globals_of (run argv env))). tauto.
Qed.

(** What no start-up does. *)
Lemma start_up_facts (argv : list string) (env : environment) :
  status_of (run argv env) <> Ok tt /\
  reports (actions_of (run argv env)) = 0%nat /\
  existsb is_clean (actions_of (run argv env)) = false /\
  (existsb is_install (actions_of (run argv env)) = true <->
   exists a, status_of (run argv env) = Spin a).
Proof.
  destruct (shown_only argv env) as (H1 & H2 & H3 & _). cbn zeta in H1, H2, H3.
  rewrite run_status, run_actions, !reports_app, !existsb_app, H1, H2, H3.
  destruct (ending_of argv env) as [| | | | |[]|[]]; cbn;
    (split; [discriminate|]); (split; [reflexivity|]); (split; [reflexivity|]);
    split; try discriminate; try (intros [a Ha]; discriminate); eauto.
Qed.

(** The two adapter flags when a processing loop is reached. *)
Lemma tracing_globals argv env a :
  status_of (run argv env) = Spin a ->
  m_perf (globals_of (run argv env)) = (match a with Perf => 1 | Ftrace => 0 end) /\
  m_ftrace (globals_of (run argv env)) = (match a with Perf => 0 | Ftrace => 1 end).
Proof.
  intros Ha. pose proof (spin_parses argv env a Ha) as Hs.
  rewrite (run_perf argv env Hs).
  change (m_ftrace (globals_of (run argv env)))
    with (load V_ftrace (globals_of (run argv env))).
  rewrite (run_switch argv env V_ftrace) by (auto; discriminate).
  rewrite run_status in Ha. unfold ending_of in Ha. rewrite Hs in Ha.
  destruct (given V_perf argv), (given V_ftrace argv); cbn [andb negb orb] in *;
    try discriminate;
    repeat match type of Ha with
           | context [if ?b then _ else _] => destruct b
           end; cbn in Ha; try discriminate; injection Ha as <-; split; reflexivity.
Qed.

(** ** The session *)

Lemma session_step_ended t s c : ended s = Some c -> session_step t s = s.
Proof. intros H. unfold session_step. rewrite H. reflexivity. Qed.

Lemma session_run_ended ts s c : ended s = Some c -> session_run ts s = s.
Proof.
  intros H. induction ts as [|t ts IH]; [reflexivity|].
  cbn [session_run fold_left]. rewrite (session_step_ended t s c H). exact IH.
Qed.

Lemma session_run_app ts1 ts2 s :
  session_run (ts1 ++ ts2) s = session_run ts2 (session_run ts1 s).
Proof. apply fold_left_app. Qed.

Lemma reports_snoc l a : is_report a = false -> reports (l ++ [a]) = reports l.
Proof.
  intros H. rewrite reports_app. unfold reports at 2. cbn [List.filter].
  rewrite H. cbn. lia.
Qed.

(** Without the signal the processing loop goes on and on. *)
Lemma session_waits ts :
  forall s,
    ended s = None -> existsb is_sigint ts = false ->
    ended (session_run ts s) = None /\
    gl (sw (session_run ts s)) = gl (sw s) /\
    looping (session_run ts s) = looping s /\
    reports (out (sw (session_run ts s))) = reports (out (sw s)).
Proof.
  induction ts as [|t ts IH]; intros s Hs Hts; [auto|].
  cbn [existsb] in Hts. apply orb_false_iff in Hts as [Ht Hts].
  cbn [session_run fold_left]. fold (session_run ts (session_step t s)).
  assert (Hstep : ended (session_step t s) = None /\
                  gl (sw (session_step t s)) = gl (sw s) /\
                  looping (session_step t s) = looping s /\
                  reports (out (sw (session_step t s))) = reports (out (sw s))).
  { unfold session_step. rewrite Hs.
    destruct t; [| |discriminate]; destruct (inside s);
      cbn [ended sw looping emit snd gl out]; repeat split; auto;
      apply reports_snoc; reflexivity. }
  destruct Hstep as (H1 & H2 & H3 & H4).
  destruct (IH _ H1 Hts) as (H5 & H6 & H7 & H8).
  rewrite H5, H6, H7, H8. auto.
Qed.

Lemma start_session_spin argv env s :
  start_session argv env = Some s ->
  status_of (run argv env) = Spin (looping s) /\
  sw s = snd (run argv env) /\ inside s = false /\ ended s = None.
Proof.
  unfold start_session, status_of.
  destruct (run argv env) as [[[]| |a] w]; try discriminate.
  intros [= <-]. auto.
Qed.

Lemma cleanups_of_session argv env s :
  start_session argv env = Some s ->
  cleanups (gl (sw s)) = [handling_clean (looping s)].
Proof.
  intros Hs. destruct (start_session_spin argv env s Hs) as (Hspin & Hsw & _).
  destruct (tracing_globals argv env _ Hspin) as [Hp Hf].
  unfold globals_of in Hp, Hf. rewrite <- Hsw in Hp, Hf.
  unfold cleanups. rewrite Hp, Hf. destruct (looping s); reflexivity.
Qed.

Lemma reports_of_signal g fmt a :
  reports (debug_line g fmt ++ [handling_clean a; final_report 0]) = 1%nat.
Proof. unfold debug_line. destruct (truthy _); reflexivity. Qed.

(** A run that reaches a processing loop: which one, and what it did
    on the way. *)
Lemma tracing_run argv env a :
  status_of (run argv env) = Spin a ->
  a = (if given V_ftrace argv then Ftrace else Perf) /\
  actions_of (run argv env) =
    (out (prelude_world env) ++ slab_usage_shown (globals_of (run argv env)) ++
     started a)%list.
Proof.
  intros Ha. pose proof (run_ending argv env) as Hend.
  rewrite run_status in Ha. unfold ending_of in *.
  destruct (first_stop (getopt_long argv)) as [[]|]; try discriminate.
  repeat match type of Ha with
         | context [if ?b then _ else _] => destruct b eqn:?
         end; cbn [status_for] in Ha; try discriminate;
    injection Ha as <-; cbn [ends_as] in Hend;
    (split; [reflexivity|apply Hend]).
Qed.

(** Until the signal comes, the session adds processing calls of its
    adapter and nothing else. *)
Lemma session_calls ts :
  forall s,
    ended s = None -> existsb is_sigint ts = false ->
    exists calls,
      out (sw (session_run ts s)) = (out (sw s) ++ calls)%list /\
      forallb (is_processing (looping s)) calls = true.
Proof.
  induction ts as [|t ts IH]; intros s Hs Hts.
  - exists []. rewrite app_nil_r. auto.
  - cbn [existsb] in Hts. apply orb_false_iff in Hts as [Ht Hts].
    cbn [session_run fold_left]. fold (session_run ts (session_step t s)).
    assert (Hstep : ended (session_step t s) = None /\
                    looping (session_step t s) = looping s /\
                    exists c, out (sw (session_step t s)) = (out (sw s) ++ c)%list /\
                              forallb (is_processing (looping s)) c = true).
    { unfold session_step. rewrite Hs.
      destruct t; [| |discriminate]; destruct (inside s);
        cbn [ended sw looping emit snd gl out]; (split; [auto|]);
        (split; [reflexivity|]);
        first [ exists []; rewrite app_nil_r; split; reflexivity
              | eexists; split; [reflexivity|]; destruct (looping s); reflexivity ]. }
    destruct Hstep as (H1 & H2 & c & H3 & H4).
    destruct (IH _ H1 Hts) as (calls & H5 & H6).
    exists (c ++ calls)%list. rewrite H5, H3, H2 in *. rewrite <- app_assoc.
    split; [reflexivity|]. rewrite forallb_app, H4, H6. reflexivity.
Qed.

(** ** [atoi] without a number *)

Lemma strtol10_unfold s :
  strtol10 s =
  Z.max LONG_MIN
    (Z.min LONG_MAX
       match skip_space s with
       | String c r =>
           if Ascii.eqb c "-" then - digits r 0
           else if Ascii.eqb c "+" then digits r 0
           else digits (String c r) 0
       | EmptyString => 0
       end).
Proof.
  unfold strtol10. destruct (skip_space s) as [|c r]; [reflexivity|].
  destruct c as [[] [] [] [] [] [] [] []]; reflexivity.
Qed.

Lemma atoi_without_number s : starts_with_number s = false -> atoi s = 0.
Proof.
  unfold starts_with_number, atoi. rewrite strtol10_unfold.
  destruct (skip_space s) as [|c r]; [reflexivity|].
  intros H. apply orb_false_iff in H as [Hc H].
  assert (Hr : digits r 0 = 0 \/ (Ascii.eqb c "-" || Ascii.eqb c "+") = false).
  { apply andb_false_iff in H as [H|H]; [right; exact H|left].
    destruct r as [|d r']; [reflexivity|]. cbn [digits]. rewrite H. reflexivity. }
  assert (Hd : digits (String c r) 0 = 0) by (cbn [digits]; rewrite Hc; reflexivity).
  destruct (Ascii.eqb c "-") eqn:Em, (Ascii.eqb c "+") eqn:Ep; cbn [orb] in Hr;
    destruct Hr as [Hr|Hr]; try discriminate; rewrite ?Hr, ?Hd; reflexivity.
Qed.

(** ** The last [--throttle] *)

Lemma option_loop_final_throttle rets :
  Forall (fun r => table_return r = true) rets ->
  first_stop rets = None ->
  forall w,
    load V_throttle (gl (snd (option_loop rets w))) =
    final_throttle rets (load V_throttle (gl w)).
Proof.
  intros Htab. induction Htab as [|r rest Hr _ IH]; intros Hs w; [reflexivity|].
  apply first_stop_cons_none in Hs as [Hs Hrest].
  assert (Hk : known (opt r) = true)
    by (unfold table_return in Hr; apply andb_true_iff in Hr; tauto).
  destruct (iteration_passes r rest w Hk Hs) as (w2 & Hw2 & _ & ->).
  rewrite (IH Hrest w2). cbn [final_throttle]. f_equal.
  destruct (opt r =? chr "t") eqn:Et.
  - apply Z.eqb_eq in Et. rewrite (handle_option_throttle r _ Et) in Hw2.
    cbn zeta in Hw2. destruct (out_of_range _); [discriminate|].
    injection Hw2 as <-. apply load_store_eq.
  - pose proof (handle_option_keeps V_throttle r (snd (apply_store r w))) as H2.
    rewrite Hw2 in H2. cbn [snd] in H2. rewrite H2 by (cbn; rewrite Et; reflexivity).
    apply (apply_store_keeps V_throttle r w Hr eq_refl).
Qed.

(** ** Options without weight *)

Lemma first_stop_weighty rets : first_stop (weighty rets) = first_stop rets.
Proof.
  induction rets as [|r rest IH]; [reflexivity|].
  unfold weighty in *. cbn [List.filter first_stop]. unfold inert at 1.
  destruct (stops r) as [s|] eqn:Hs.
  - cbn [negb first_stop]. rewrite Hs. reflexivity.
  - destruct (negb _); cbn [negb first_stop]; rewrite ?Hs; exact IH.
Qed.

Lemma touches_weighty x rets :
  x = V_perf \/ x = V_ftrace \/ x = V_page \/ x = V_slab \/ x = V_show_misc ->
  existsb (touches x) (weighty rets) = existsb (touches x) rets.
Proof.
  intros Hx. induction rets as [|r rest IH]; [reflexivity|].
  unfold weighty in *. cbn [List.filter existsb].
  destruct (inert r) eqn:Hi; cbn [negb existsb]; rewrite IH; [|reflexivity].
  unfold inert in Hi. destruct (stops r); [discriminate|].
  apply negb_true_iff in Hi. do 4 (apply orb_false_iff in Hi as [Hi ?]).
  assert (Ht : touches x r = false)
    by (destruct Hx as [->|[->|[->|[->| ->]]]]; assumption).
  rewrite Ht. reflexivity.
Qed.

Lemma ending_of_weighty argv1 argv2 env :
  weighty (getopt_long argv1) = weighty (getopt_long argv2) ->
  ending_of argv1 env = ending_of argv2 env /\
  parses argv1 = parses argv2 /\
  given V_show_misc argv1 = given V_show_misc argv2.
Proof.
  intros H.
  assert (Hg : forall x,
             x = V_perf \/ x = V_ftrace \/ x = V_page \/ x = V_slab \/ x = V_show_misc ->
             given x argv1 = given x argv2).
  { intros x Hx. unfold given.
    rewrite <- (touches_weighty x (getopt_long argv1) Hx),
            <- (touches_weighty x (getopt_long argv2) Hx), H. reflexivity. }
  assert (Hs : first_stop (getopt_long argv1) = first_stop (getopt_long argv2)).
  { rewrite <- (first_stop_weighty (getopt_long argv1)),
            <- (first_stop_weighty (getopt_long argv2)), H. reflexivity. }
  unfold ending_of, parses. rewrite Hs.
  rewrite (Hg V_perf), (Hg V_ftrace), (Hg V_page), (Hg V_slab), (Hg V_show_misc)
    by tauto.
  auto.
Qed.

(** ** The page size *)

Lemma option_loop_page_size rets :
  Forall (fun r => table_return r = true) rets ->
  forall w, load V_page_size (gl (snd (option_loop rets w))) = load V_page_size (gl w).
Proof.
  intros Htab w.
  apply (option_loop_preserves
           (fun g => load V_page_size g = load V_page_size (gl w))); [| |reflexivity].
  - intros r w' Hin Hw'. rewrite Forall_forall in Htab.
    rewrite apply_store_keeps by (try reflexivity; apply Htab, list_elem_of_In, Hin).
    exact Hw'.
  - intros r w' _ Hw'. rewrite handle_option_keeps by reflexivity. exact Hw'.
Qed.

(** * The claim about the default adapter *)

Lemma initialised_adapters_app l1 l2 :
  initialised_adapters (l1 ++ l2) =
  (initialised_adapters l1 ++ initialised_adapters l2)%list.
Proof.
  induction l1 as [|a l1 IH]; [reflexivity|].
  destruct a; cbn [app initialised_adapters]; rewrite IH; reflexivity.
Qed.

Lemma slab_usage_initialises_nothing g :
  initialised_adapters (slab_usage_shown g) = [].
Proof. unfold slab_usage_shown. destruct (truthy _); reflexivity. Qed.

(** The adapters a run initialises are those of its last actions. *)
Lemma run_initialised_adapters argv env :
  initialised_adapters (actions_of (run argv env)) =
  initialised_adapters (tail_of (ending_of argv env)).
Proof.
  rewrite run_actions, !initialised_adapters_app.
  destruct (parses argv); [rewrite slab_usage_initialises_nothing|]; reflexivity.
Qed.

(** ** C10: the default adapter *)

(** C10, counterexample: [memstrack --help] gives neither [--ftrace] nor
    [--perf], and ends with [m_perf] still 0 and no adapter initialised:
    the usage exit of line 193 comes before the default of line 210. *)
Lemma help_selects_no_adapter :
  m_perf (globals_of (run ["--help"] root_env)) = 0 /\
  initialised_adapters (actions_of (run ["--help"] root_env)) = [] /\
  ~ default_adapter_claim ["--help"] root_env.
Proof.
  split; [reflexivity|]. split; [reflexivity|].
  intros H. destruct (H eq_refl eq_refl) as [[Hperf _] _].
  vm_compute in Hperf. discriminate.
Qed.

(** C10, amended: for every invocation in which neither [--ftrace] nor
    [--perf] is given, if the option loop runs to its end then [m_perf]
    is 1 and [m_ftrace] is 0 at the end of the run (perf is selected by
    default); the adapters the run initialises are perf alone when the
    options parse, [--page] or [--slab] is given and the user is root,
    and none otherwise; the run enters the processing loop of perf
    exactly when moreover [perf_handling_init] answers 0; and it never
    enters the loop of ftrace. *)
Theorem perf_is_the_default_adapter (argv : list string) (env : environment) :
  given V_ftrace argv = false -> given V_perf argv = false ->
  (parses argv = true ->
   m_perf (globals_of (run argv env)) = 1 /\
   m_ftrace (globals_of (run argv env)) = 0) /\
  initialised_adapters (actions_of (run argv env)) =
    (if parses argv && (given V_page argv || given V_slab argv) && (getuid env =? 0)
     then [Perf] else []) /\
  (status_of (run argv env) = Spin Perf <->
   parses argv = true /\ given V_page argv || given V_slab argv = true /\
   getuid env = 0 /\ perf_handling_init_ret env = 0) /\
  status_of (run argv env) <> Spin Ftrace.
Proof.
  intros Hftrace Hperf. split.
  { unfold parses. intros Hp.
    destruct (first_stop (getopt_long argv)) as [s|] eqn:Hs; [discriminate|].
    split.
    - rewrite (run_perf argv env Hs), Hperf, Hftrace. reflexivity.
    - change (m_ftrace (globals_of (run argv env)))
        with (load V_ftrace (globals_of (run argv env))).
      rewrite (run_switch argv env V_ftrace) by (auto; discriminate).
      rewrite Hftrace. reflexivity. }
  rewrite run_initialised_adapters, run_status.
  unfold ending_of, parses.
  destruct (first_stop (getopt_long argv)) as [[]|].
  - repeat split; try discriminate. intros [H _]. discriminate.
  - repeat split; try discriminate. intros [H _]. discriminate.
  - rewrite Hperf, Hftrace. cbn [andb negb].
    destruct (given V_page argv), (given V_slab argv); cbn [andb negb orb];
      try (repeat split; try discriminate; intros (_ & H & _); discriminate);
      (destruct (getuid env =? 0) eqn:Huid; cbn [negb];
       [apply Z.eqb_eq in Huid
       |apply Z.eqb_neq in Huid; repeat split; try discriminate;
        intros (_ & _ & H & _); contradiction]);
      cbn [init_ret]; unfold truthy;
      (destruct (perf_handling_init_ret env =? 0) eqn:Hinit; cbn [negb];
       [apply Z.eqb_eq in Hinit|apply Z.eqb_neq in Hinit]);
      cbn [tail_of status_for started initialised_adapters init_ret];
      repeat split; try discriminate; try assumption;
      intros (_ & _ & _ & H); contradiction.
Qed.

Lemma perf_is_the_default_adapter_witness :
  m_perf (globals_of (run ["--page"] root_env)) = 1 /\
  m_ftrace (globals_of (run ["--page"] root_env)) = 0 /\
  initialised_adapters (actions_of (run ["--page"] root_env)) = [Perf] /\
  status_of (run ["--page"] root_env) = Spin Perf.
Proof.
  destruct (perf_is_the_default_adapter ["--page"] root_env eq_refl eq_refl)
    as (Hselected & Hinit & Hloop & _).
  destruct (Hselected eq_refl) as [Hp Hf].
  split; [exact Hp|]. split; [exact Hf|]. split; [exact Hinit|].
  apply Hloop. repeat split.
Defined.

(** * Further properties of the orchestrator: the theorems *)

(** ** How every run ends *)

(** X1: every run of [main] ends the way [ending_of] reads off the
    command line and the environment: usage and status 0 at the first
    ['?'], status 1 at the first out-of-range [--throttle], then, in
    this order, [EINVAL] for [--perf] with [--ftrace], [EINVAL] without
    [--page] and [--slab], [EPERM] for a non-root user, the error code of
    the adapter whose initialisation fails, and otherwise the processing
    loop of the selected adapter; with the actions of [ends_as]. *)
Theorem run_ends_as_decided (argv : list string) (env : environment) :
  ends_as env (ending_of argv env) (run argv env).
Proof. exact (run_ending argv env). Qed.


(** ** The globals after the options *)

(** X2: when the option loop runs to its end, each flag of the option
    table, and [m_debug] and [m_human], is 1 at the end of the run if an
    option that sets it was given and 0 if not; [m_perf] is 1 also when
    neither [--perf] nor [--ftrace] was given. *)
Theorem flags_reflect_the_options (argv : list string) (env : environment) :
  first_stop (getopt_long argv) = None ->
  (forall x, is_flag x = true \/ x = V_debug \/ x = V_human -> x <> V_perf ->
             load x (globals_of (run argv env)) = if given x argv then 1 else 0) /\
  m_perf (globals_of (run argv env)) =
    if given V_perf argv || negb (given V_ftrace argv) then 1 else 0.
Proof.
  intros Hs. split.
  - intros x Hx Hne. apply run_switch; assumption.
  - apply run_perf, Hs.
Qed.

Lemma flags_reflect_the_options_witness :
  load V_json (globals_of (run ["--slab"; "-d"; "--json"] user_env)) = 1 /\
  load V_page (globals_of (run ["--slab"; "-d"; "--json"] user_env)) = 0 /\
  load V_debug (globals_of (run ["--slab"; "-d"; "--json"] user_env)) = 1 /\
  m_perf (globals_of (run ["--slab"; "-d"; "--json"] user_env)) = 1.
Proof.
  destruct (flags_reflect_the_options ["--slab"; "-d"; "--json"] user_env eq_refl)
    as [Hflags Hperf].
  split; [|split; [|split]].
  - apply (Hflags V_json); [left; reflexivity|discriminate].
  - apply (Hflags V_page); [left; reflexivity|discriminate].
  - apply (Hflags V_debug); [right; left; reflexivity|discriminate].
  - exact Hperf.
Defined.

(** X3: at the end of every run exactly one of [m_sort_alloc] and
    [m_sort_peak] is 1 and the other is 0, whatever [--sort-by] options
    were given and however the run ended. *)
Theorem exactly_one_sort_flag (argv : list string) (env : environment) :
  one_sort_flag (globals_of (run argv env)).
Proof.
  unfold one_sort_flag. rewrite !run_keeps by discriminate.
  apply (option_loop_one_sort_flag _ (getopt_long_table_return argv)).
  left. split; reflexivity.
Qed.

(** X4: whenever a run gets past the option loop, and so whenever it
    reaches a processing loop, [m_throttle] lies within 0..100. *)
Theorem threshold_is_a_percentage (argv : list string) (env : environment) :
  (first_stop (getopt_long argv) = None ->
   throttle_in_range (globals_of (run argv env))) /\
  (forall a, status_of (run argv env) = Spin a ->
             throttle_in_range (globals_of (run argv env))).
Proof.
  assert (H : first_stop (getopt_long argv) = None ->
              throttle_in_range (globals_of (run argv env))).
  { intros Hs. unfold throttle_in_range.
    change (m_throttle (globals_of (run argv env)))
      with (load V_throttle (globals_of (run argv env))).
    rewrite run_keeps by discriminate.
    apply (option_loop_throttle_in_range _ (getopt_long_table_return argv) Hs).
    unfold throttle_in_range. cbn. lia. }
  split; [exact H|]. intros a Ha. apply H. exact (spin_parses argv env a Ha).
Qed.

Lemma threshold_is_a_percentage_witness :
  throttle_in_range (globals_of (run ["--page"; "--throttle"; "30"; "--throttle=7"] root_env)).
Proof.
  apply (threshold_is_a_percentage ["--page"; "--throttle"; "30"; "--throttle=7"] root_env).
  reflexivity.
Defined.

(** ** What the start-up does and does not do *)

(** X5: [print_slab_usage] is called exactly in the runs that get past
    the option loop with [--show-misc] given: also when the run then
    fails a configuration check or the privilege check, and never for
    [--help] or a rejected [--throttle]. *)
Theorem slab_usage_is_shown_iff (argv : list string) (env : environment) :
  existsb is_slab_usage (actions_of (run argv env)) =
  parses argv && given V_show_misc argv.
Proof.
  rewrite run_actions, !existsb_app.
  assert (Htail : existsb is_slab_usage (tail_of (ending_of argv env)) = false)
    by (destruct (ending_of argv env) as [| | | | |[]|[]]; reflexivity).
  rewrite Htail, orb_false_r. cbn [existsb prelude_world out is_slab_usage orb].
  unfold parses.
  destruct (first_stop (getopt_long argv)) as [s|] eqn:Hs; [reflexivity|].
  destruct (slab_usage_shown_only (globals_of (run argv env))) as (_ & _ & _ & _ & ->).
  change (m_show_misc (globals_of (run argv env)))
    with (load V_show_misc (globals_of (run argv env))).
  rewrite (run_switch argv env V_show_misc) by (auto; discriminate).
  apply truthy_given.
Qed.

(** X6: the start-up never returns from [main], never calls
    [final_report] and never cleans an adapter up (the [do_exit] of line
    241 is not reached); the signal handler is installed exactly in the
    runs that reach a processing loop. *)
Theorem start_up_never_reports (argv : list string) (env : environment) :
  status_of (run argv env) <> Ok tt /\
  reports (actions_of (run argv env)) = 0%nat /\
  existsb is_clean (actions_of (run argv env)) = false /\
  (existsb is_install (actions_of (run argv env)) = true <->
   exists a, status_of (run argv env) = Spin a).
Proof. exact (start_up_facts argv env). Qed.

(** X7: a tracing adapter is initialised only in a run by root that gets
    past the option loop with at most one of [--perf] and [--ftrace] and
    at least one of [--page] and [--slab]; and it is the ftrace adapter
    if [--ftrace] was given and the perf adapter if not. *)
Theorem adapter_is_initialised_only_if
    (argv : list string) (env : environment) (a : adapter) :
  In (handling_init a) (actions_of (run argv env)) ->
  parses argv = true /\
  given V_perf argv && given V_ftrace argv = false /\
  given V_page argv || given V_slab argv = true /\
  getuid env = 0 /\
  a = if given V_ftrace argv then Ftrace else Perf.
Proof.
  intros Hin.
  assert (Htail : In (handling_init a) (tail_of (ending_of argv env))).
  { rewrite run_actions in Hin. apply in_app_or in Hin as [Hin|Hin].
    - cbn in Hin. intuition discriminate.
    - apply in_app_or in Hin as [Hin|Hin]; [|exact Hin].
      destruct (shown_only argv env) as (_ & _ & _ & Hni). cbn zeta in Hni.
      destruct (not_initialised_not_In _ a Hni Hin). }
  clear Hin. unfold ending_of, parses in *.
  destruct (first_stop (getopt_long argv)) as [[]|].
  - cbn in Htail. intuition discriminate.
  - cbn in Htail. intuition discriminate.
  - destruct (given V_perf argv), (given V_ftrace argv); cbn [andb negb] in *;
      try (cbn in Htail; intuition discriminate);
      (destruct (given V_page argv), (given V_slab argv); cbn [andb negb orb] in *;
       try (cbn in Htail; intuition discriminate));
      (destruct (getuid env =? 0) eqn:Huid; cbn [negb] in *;
       [apply Z.eqb_eq in Huid|cbn in Htail; intuition discriminate]);
      match type of Htail with
      | context [if ?b then _ else _] => destruct b
      end; cbn in Htail;
      repeat split; try assumption; intuition congruence.
Qed.

Lemma adapter_is_initialised_only_if_witness :
  In (handling_init Ftrace) (actions_of (run ["--ftrace"; "--page"] root_env)) /\
  getuid root_env = 0 /\
  Ftrace = (if given V_ftrace ["--ftrace"; "--page"] then Ftrace else Perf).
Proof.
  assert (Hin : In (handling_init Ftrace)
                   (actions_of (run ["--ftrace"; "--page"] root_env))).
  { vm_compute. right. right. right. left. reflexivity. }
  split; [exact Hin|].
  apply (adapter_is_initialised_only_if ["--ftrace"; "--page"] root_env Ftrace Hin).
Defined.

(** ** From the start-up to the shutdown *)

(** X8: in a session that [main] has started, SIGINT cleans up the
    adapter that was initialised, and only that one, before the final
    report: the actions the handler adds are the debug line, if
    [m_debug] is set, then the clean-up of the session's adapter, then
    [final_report(&TaskMap, 0)]. *)
Theorem shutdown_cleans_the_started_adapter
    (argv : list string) (env : environment) (s : session) :
  start_session argv env = Some s ->
  In (handling_init (looping s)) (out (sw s)) /\
  out (sw (session_step SIGINT s)) =
    (out (sw s) ++ debug_line (gl (sw s)) "Exiting on signal %d\n" ++
     [handling_clean (looping s); final_report 0])%list.
Proof.
  intros Hs. destruct (start_session_spin argv env s Hs) as (Hspin & Hsw & _ & Hrun).
  split.
  - rewrite Hsw. change (out (snd (run argv env))) with (actions_of (run argv env)).
    rewrite run_actions. rewrite run_status in Hspin.
    destruct (ending_of argv env) as [| | | | |a|a]; try discriminate.
    injection Hspin as Ha. rewrite <- Ha.
    apply in_or_app. right. apply in_or_app. right.
    destruct a; left; reflexivity.
  - unfold session_step. rewrite Hrun, on_signal_run. cbn [sw out].
    rewrite (cleanups_of_session argv env s Hs). reflexivity.
Qed.

Lemma shutdown_cleans_the_started_adapter_witness :
  exists s, start_session ["--slab"; "--ftrace"] root_env = Some s /\
            out (sw (session_step SIGINT s)) =
            (out (sw s) ++ [handling_clean Ftrace; final_report 0])%list.
Proof.
  eexists. split; [reflexivity|].
  apply (shutdown_cleans_the_started_adapter ["--slab"; "--ftrace"] root_env).
  reflexivity.
Defined.

(** X9: in a session that [main] has started, as long as no SIGINT is
    delivered the process goes on tracing: it has not exited, the globals
    are those the start-up left, and its actions so far are those of the
    start-up, which end with the initialisation of the session's adapter,
    the installation of the handler and, for perf only,
    [perf_handling_start], followed by nothing but entries into and
    returns from the processing call of that same adapter: ftrace if
    [--ftrace] was given, perf if not. *)
Theorem session_waits_for_the_signal
    (argv : list string) (env : environment) (s : session) (ts : list tick) :
  start_session argv env = Some s ->
  existsb is_sigint ts = false ->
  ended (session_run ts s) = None /\
  gl (sw (session_run ts s)) = globals_of (run argv env) /\
  looping s = (if given V_ftrace argv then Ftrace else Perf) /\
  exists calls,
    out (sw (session_run ts s)) =
      (out (prelude_world env) ++ slab_usage_shown (globals_of (run argv env)) ++
       started (looping s) ++ calls)%list /\
    forallb (is_processing (looping s)) calls = true.
Proof.
  intros Hs Hts.
  destruct (start_session_spin argv env s Hs) as (Hspin & Hsw & _ & Hrun).
  destruct (session_waits ts s Hrun Hts) as (H1 & H2 & _).
  destruct (session_calls ts s Hrun Hts) as (calls & H3 & H4).
  destruct (tracing_run argv env _ Hspin) as [Ha Hout].
  split; [exact H1|]. split; [rewrite H2, Hsw; reflexivity|].
  split; [exact Ha|]. exists calls. split; [|exact H4].
  rewrite H3, Hsw. change (out (snd (run argv env))) with (actions_of (run argv env)).
  rewrite Hout, <- !app_assoc. reflexivity.
Qed.

Lemma session_waits_for_the_signal_witness :
  exists s, start_session ["--page"; "--ftrace"] root_env = Some s /\
            ended (session_run [enter_process; leave_process; enter_process] s) = None /\
            looping s = Ftrace.
Proof.
  eexists. split; [reflexivity|].
  destruct (session_waits_for_the_signal ["--page"; "--ftrace"] root_env _
              [enter_process; leave_process; enter_process] eq_refl eq_refl)
    as (Hended & _ & Hloop & _).
  split; [exact Hended|exact Hloop].
Defined.

(** X10: in a session that [main] has started, whatever the schedule,
    the first SIGINT ends the process with status 0, everything after it
    is without effect, and over the whole life of the process
    [final_report] is called exactly once. *)
Theorem the_report_is_made_once
    (argv : list string) (env : environment) (s : session)
    (before after : list tick) :
  start_session argv env = Some s ->
  existsb is_sigint before = false ->
  session_run (before ++ SIGINT :: after) s =
    session_step SIGINT (session_run before s) /\
  ended (session_run (before ++ SIGINT :: after) s) = Some 0 /\
  reports (out (sw (session_run (before ++ SIGINT :: after) s))) = 1%nat.
Proof.
  intros Hs Hbefore.
  destruct (start_session_spin argv env s Hs) as (_ & Hsw & _ & Hrun).
  destruct (session_waits before s Hrun Hbefore) as (H1 & H2 & H3 & H4).
  pose proof (cleanups_of_session argv env s Hs) as Hclean.
  destruct (start_up_facts argv env) as (_ & H0 & _).
  assert (Hstep : ended (session_step SIGINT (session_run before s)) = Some 0 /\
                  reports (out (sw (session_step SIGINT (session_run before s)))) = 1%nat).
  { unfold session_step. rewrite H1, on_signal_run. cbn [ended sw out].
    split; [reflexivity|]. rewrite H2, Hclean, reports_app, H4, Hsw.
    change (out (snd (run argv env))) with (actions_of (run argv env)).
    rewrite H0. apply reports_of_signal. }
  destruct Hstep as [He Hr].
  assert (Heq : session_run (before ++ SIGINT :: after) s =
                session_step SIGINT (session_run before s)).
  { rewrite session_run_app. cbn [session_run fold_left].
    apply (session_run_ended after _ 0 He). }
  rewrite Heq. auto.
Qed.

Lemma the_report_is_made_once_witness :
  exists s, start_session ["--page"] root_env = Some s /\
            reports (out (sw (session_run
                                ([enter_process; leave_process; enter_process] ++
                                 SIGINT :: [leave_process; SIGINT]) s))) = 1%nat.
Proof.
  eexists. split; [reflexivity|].
  apply (the_report_is_made_once ["--page"] root_env); reflexivity.
Defined.

(** ** The threshold *)

(** X12: a [--throttle] argument that does not start with a number
    (blanks, an optional sign, a digit) is not rejected: [atoi] gives 0
    for it, so the threshold becomes 0 and the loop goes on. *)
Theorem throttle_without_number_is_0
    (arg : string) (rets : list getopt_ret) (w : world) :
  starts_with_number arg = false ->
  atoi arg = 0 /\
  option_loop (throttle arg :: rets) w =
  option_loop rets (World (store V_throttle 0 (gl w)) (out w)).
Proof.
  intros H. pose proof (atoi_without_number arg H) as Ha. split; [exact Ha|].
  cbn [option_loop]. rewrite bind_unfold, apply_store_run. cbn [stored throttle].
  rewrite bind_unfold, handle_option_throttle by reflexivity.
  cbn zeta. change (optarg_of (throttle arg)) with arg. rewrite Ha.
  destruct w; reflexivity.
Qed.

Lemma throttle_without_number_is_0_witness :
  atoi "lots" = 0 /\
  option_loop (throttle "lots" :: getopt_long ["--page"]) (prelude_world root_env) =
  option_loop (getopt_long ["--page"])
    (World (store V_throttle 0 (gl (prelude_world root_env)))
           (out (prelude_world root_env))).
Proof.
  apply (throttle_without_number_is_0 "lots" (getopt_long ["--page"])
           (prelude_world root_env)).
  reflexivity.
Defined.

(** X13: when the option loop runs to its end, [m_throttle] is the
    value of the last [--throttle] on the command line, and 100 if there
    is none: [final_throttle] of the returns of [getopt_long]. *)
Theorem last_throttle_wins (argv : list string) (env : environment) :
  first_stop (getopt_long argv) = None ->
  m_throttle (globals_of (run argv env)) = final_throttle (getopt_long argv) 100.
Proof.
  intros Hs.
  change (m_throttle (globals_of (run argv env)))
    with (load V_throttle (globals_of (run argv env))).
  rewrite run_keeps by discriminate.
  apply (option_loop_final_throttle _ (getopt_long_table_return argv) Hs).
Qed.

Lemma last_throttle_wins_witness :
  m_throttle (globals_of (run ["--throttle"; "30"; "--slab"; "--throttle=7"] user_env)) = 7.
Proof.
  apply (last_throttle_wins ["--throttle"; "30"; "--slab"; "--throttle=7"] user_env).
  reflexivity.
Defined.

(** ** Options that do not matter to the start-up *)

(** X14: the status and the actions of a run depend only on the returns
    of [getopt_long] that end the process or set one of [m_perf],
    [m_ftrace], [m_page], [m_slab] and [m_show_misc]: two command lines
    that agree on those returns, in their order, run alike.  So
    [--debug], [--json], [--summary], [--sort-by], [-h], [-b] and a
    [--throttle] within range change nothing in how the start-up
    goes. *)
Theorem inert_options_do_not_matter (argv1 argv2 : list string) (env : environment) :
  weighty (getopt_long argv1) = weighty (getopt_long argv2) ->
  status_of (run argv1 env) = status_of (run argv2 env) /\
  actions_of (run argv1 env) = actions_of (run argv2 env).
Proof.
  intros H. destruct (ending_of_weighty argv1 argv2 env H) as (He & Hp & Hm).
  rewrite !run_status, !run_actions, He, Hp. split; [reflexivity|].
  f_equal. f_equal. unfold parses in *.
  destruct (first_stop (getopt_long argv2)) as [s|] eqn:Hs2;
    destruct (first_stop (getopt_long argv1)) as [s'|] eqn:Hs1;
    try discriminate; try reflexivity.
  unfold slab_usage_shown.
  change (m_show_misc (globals_of (run argv1 env)))
    with (load V_show_misc (globals_of (run argv1 env))).
  change (m_show_misc (globals_of (run argv2 env)))
    with (load V_show_misc (globals_of (run argv2 env))).
  rewrite !(run_switch _ env V_show_misc) by (auto; discriminate).
  rewrite Hm. reflexivity.
Qed.

Lemma inert_options_do_not_matter_witness :
  status_of (run ["-d"; "--slab"; "--sort-by"; "peak"; "--json"; "-h"; "--throttle"; "3"] user_env)
  = status_of (run ["--slab"] user_env).
Proof.
  apply (inert_options_do_not_matter
           ["-d"; "--slab"; "--sort-by"; "peak"; "--json"; "-h"; "--throttle"; "3"]
           ["--slab"] user_env).
  reflexivity.
Defined.

(** ** The first steps of [main] *)

(** X15: every run starts with the two [mallopt] calls and
    [mem_tracing_init], before any option is looked at and whatever the
    options are; and [page_size] still holds the answer of
    [getpagesize] when the run ends. *)
Theorem every_run_starts_alike (argv : list string) (env : environment) :
  (exists rest,
     actions_of (run argv env) =
     ([mallopt M_TOP_PAD 4096; mallopt M_TRIM_THRESHOLD 4096; mem_tracing_init]
      ++ rest)%list) /\
  page_size (globals_of (run argv env)) = getpagesize env.
Proof.
  split.
  - rewrite run_actions. eexists. reflexivity.
  - change (page_size (globals_of (run argv env)))
      with (load V_page_size (globals_of (run argv env))).
    rewrite run_keeps by discriminate.
    rewrite (option_loop_page_size _ (getopt_long_table_return argv)).
    reflexivity.
Qed.
